(** * automaker server: authentication routes and feature validation

    A shallow embedding of

    - the auth routes of the server ([createAuthRoutes], mounted at
      [/api/auth]: the [/status], [/login], [/token] and [/logout]
      handlers),
    - [apps/server/src/routes/features/routes/validate-feature.ts]
      ([createValidateFeatureHandler]),
    - the part of [lib/auth.ts] those handlers import.  Of [lib/auth.ts]
      only the unit tests of [authMiddleware] and the callers are at hand,
      not its source; module [Auth] models it from the specification, and
      every definition there says so.

    Handlers are state transformers over an Express response object and the
    state of the auth library; every call a handler makes into the library
    is recorded in a trace, so that "is never called" and "is called once"
    are statements about that trace. *)

From Stdlib Require Import ZArith NArith Ascii String.
From stdpp Require Import gmap strings list pretty.

Local Open Scope string_scope.
Local Open Scope Z_scope.

(** ** JavaScript values *)

(** A value of TypeScript type [string | undefined].  JavaScript treats
    [undefined] and the empty string as falsy, every other string as
    truthy; [if (x)] and [!x] in the handlers test exactly this. *)
Definition truthy (x : option string) : bool :=
  match x with
  | Some s => negb (String.eqb s "")
  | None => false
  end.

(** JSON bodies handed to [res.json].  Keys are source literals; the type of
    string values is a parameter (byte strings for the auth routes, UTF-16
    code units for the agent's text). *)
#[local] Unset Elimination Schemes.
Inductive json (S : Type) : Type :=
| JBool (b : bool)
| JNum (n : Z)
| JStr (s : S)
| JObj (fields : list (string * json S)).
#[local] Set Elimination Schemes.

Arguments JBool {S} b.
Arguments JNum {S} n.
Arguments JStr {S} s.
Arguments JObj {S} fields.

(** [x] when it is truthy, [None] otherwise: the value a handler goes on
    with after its [if (!x) { ...; return; }] guard. *)
Definition asTruthy (x : option string) : option string :=
  if truthy x then x else None.

(** ** Express: requests, responses and the handler monad *)

Module Express.

(** The parts of [req] the handlers read: [req.headers], [req.cookies]
    (absent unless the cookie parser ran, hence [req.cookies?.[name]])
    and the [apiKey] field of the parsed JSON body. *)
Record Request := {
  headers : gmap string string;
  cookies : option (gmap string string);
  body_apiKey : option string;
}.

Record CookieOptions := {
  httpOnly : bool;
  secure : bool;
  sameSite : string;
  path : string;
}.

Inductive CookieOp :=
| SetCookie (name value : string) (options : CookieOptions)
| ClearCookie (name : string) (options : CookieOptions).

(** [res]: the status code (200 until [res.status] changes it), the
    arguments of every [res.status] call, the bodies sent with [res.json]
    and the cookie operations, each in call order. *)
Record Response := {
  statusCode : Z;
  statusCalls : list Z;
  sent : list (json string);
  cookieOps : list CookieOp;
}.

Definition freshResponse : Response :=
  {| statusCode := 200; statusCalls := []; sent := []; cookieOps := [] |}.

(** What a handler does besides writing to [res]: calling [next] and
    calling into [lib/auth.ts]. *)
Inductive Event :=
| EvNext
| EvValidateApiKey (key : string)
| EvCreateSession
| EvInvalidateSession (token : string)
| EvIsRequestAuthenticated
| EvCreateWsConnectionToken.

(** State threaded through a handler: the auth library's state [W], the
    response under construction, and the events so far. *)
Record HState (W : Type) := {
  lib : W;
  res : Response;
  trace : list Event;
}.
Arguments lib {W} _.
Arguments res {W} _.
Arguments trace {W} _.

Definition M (W A : Type) : Type := HState W → A * HState W.

#[global] Instance M_ret {W} : MRet (M W) := λ A a h, (a, h).
#[global] Instance M_bind {W} : MBind (M W) :=
  λ A B f m h, let '(a, h') := m h in f a h'.

Section Ops.
Context {W : Type}.

Definition withRes (f : Response → Response) : M W unit :=
  λ h, (tt, {| lib := lib h; res := f (res h); trace := trace h |}).

Definition emit (e : Event) : M W unit :=
  λ h, (tt, {| lib := lib h; res := res h; trace := trace h ++ [e] |}).

(** Run a library operation on the library state. *)
Definition onLib {A} (op : W → A * W) : M W A :=
  λ h, let '(a, w) := op (lib h) in
       (a, {| lib := w; res := res h; trace := trace h |}).

(** A call into the library: the event [e], then the operation. *)
Definition calling {A} (e : Event) (op : W → A * W) : M W A :=
  λ h, onLib op {| lib := lib h; res := res h; trace := trace h ++ [e] |}.

(** [res.status(code)] *)
Definition status (code : Z) : M W unit :=
  withRes (λ r, {| statusCode := code;
                   statusCalls := statusCalls r ++ [code];
                   sent := sent r;
                   cookieOps := cookieOps r |}).

(** [res.json(body)] *)
Definition sendJson (body : json string) : M W unit :=
  withRes (λ r, {| statusCode := statusCode r;
                   statusCalls := statusCalls r;
                   sent := sent r ++ [body];
                   cookieOps := cookieOps r |}).

Definition cookieOp (op : CookieOp) : M W unit :=
  withRes (λ r, {| statusCode := statusCode r;
                   statusCalls := statusCalls r;
                   sent := sent r;
                   cookieOps := cookieOps r ++ [op] |}).

(** [res.cookie(name, value, options)] *)
Definition cookie (name value : string) (options : CookieOptions) : M W unit :=
  cookieOp (SetCookie name value options).

(** [res.clearCookie(name, options)] *)
Definition clearCookie (name : string) (options : CookieOptions) : M W unit :=
  cookieOp (ClearCookie name options).

(** [next()] *)
Definition next : M W unit := emit EvNext.

(** A handler run on a fresh response, starting from library state [w]. *)
Definition handle (m : M W unit) (w : W) : HState W :=
  (m {| lib := w; res := freshResponse; trace := [] |}).2.
End Ops.

(** The JSON bodies of the failure replies. *)
Definition failure (error : string) : json string :=
  JObj [("success", JBool false); ("error", JStr error)].

(** A response after one [res.json(body)]: its status code, the
    [res.status] calls made and the cookie operations. *)
Definition replied (code : Z) (calls : list Z) (body : json string)
  (ops : list CookieOp) : Response :=
  {| statusCode := code; statusCalls := calls; sent := [body]; cookieOps := ops |}.

End Express.

(** ** [lib/auth.ts], modelled from the specification *)

Module Auth.

(** *** KeyValidator *)

(** Modelled from the spec: [crypto.timingSafeEqual] as used by the absent
    [validateApiKey].  The comparison walks both buffers to the end and
    accumulates the differences of all byte pairs; buffers of different
    lengths are an error ([None]). *)
Fixpoint xorAccumulate (acc : N) (a b : list ascii) : N :=
  match a, b with
  | x :: a', y :: b' =>
      xorAccumulate (N.lor acc (N.lxor (N_of_ascii x) (N_of_ascii y))) a' b'
  | _, _ => acc
  end.

(** Modelled from the spec: the "full comparison" of §4.1, on buffers of
    the same length. *)
Definition timingSafeEqual (a b : list ascii) : option bool :=
  if Nat.eqb (length a) (length b)
  then Some (N.eqb (xorAccumulate 0%N a b) 0%N)
  else None.

(** Modelled from the spec: [validateApiKey] of [lib/auth.ts] (§4.1,
    KeyValidator).  [secret] is the configured API key, [None] when none
    is configured.  No secret: every key is rejected.  A length mismatch
    still runs one full comparison (of the secret against itself) before
    rejecting. *)
Definition validateApiKey (secret : option string) (key : string) : bool :=
  match secret with
  | None => false
  | Some k =>
      let keyBuffer := list_ascii_of_string key in
      let apiKeyBuffer := list_ascii_of_string k in
      if Nat.eqb (length keyBuffer) (length apiKeyBuffer)
      then default false (timingSafeEqual keyBuffer apiKeyBuffer)
      else
        let _ := timingSafeEqual apiKeyBuffer apiKeyBuffer in
        false
  end.

(** *** Configuration *)

(** Modelled from the spec: the configuration surface of §6 (one secret,
    the cookie name and attributes, the session lifetime) and the entropy
    source of §3.  [randomToken n] is the token the [n]-th draw from the
    entropy source yields; the name of the session-token header is not
    fixed by the specification and is a field too.  Times are in seconds. *)
Record Config := {
  API_KEY : option string;
  SESSION_COOKIE_NAME : string;
  SESSION_TOKEN_HEADER : string;
  SESSION_MAX_AGE : Z;
  production : bool;
  randomToken : nat → string;
}.

(** Modelled from the spec: the connection-token lifetime, "fixed TTL
    (5 minutes)", "(300s)". *)
Definition WS_TOKEN_MAX_AGE : Z := 5 * 60.

(** *** SessionStore *)

(** Modelled from the spec: the Session record of §3; its token is the key
    it is stored under. *)
Record Session := {
  createdAt : Z;
  expiresAt : Z;
}.

(** Modelled from the spec: the ConnectionToken record of §3.  The
    [/token] handler calls [createWsConnectionToken()] without a session
    token, so the record made there has no issuing session to refer to and
    holds the expiry only. *)
Record ConnectionToken := {
  wsExpiresAt : Z;
}.

(** Modelled from the spec: the store of §3 and §4.2, sessions and
    connection tokens in separate maps, and the number of tokens drawn from
    the entropy source so far. *)
Record Store := {
  validSessions : gmap string Session;
  wsConnectionTokens : gmap string ConnectionToken;
  drawn : nat;
}.

(** Modelled from the spec: the store at process start. *)
Definition emptyStore : Store :=
  {| validSessions := ∅; wsConnectionTokens := ∅; drawn := 0 |}.

(** Modelled from the spec: [create() -> token] of §4.2. *)
Definition createSession (cfg : Config) (now : Z) (st : Store) : string * Store :=
  let token := randomToken cfg (drawn st) in
  (token,
   {| validSessions :=
        <[token := {| createdAt := now; expiresAt := now + SESSION_MAX_AGE cfg |}]>
          (validSessions st);
      wsConnectionTokens := wsConnectionTokens st;
      drawn := S (drawn st) |}).

(** Modelled from the spec: [get(token) -> Session | absent] of §4.2, with
    lazy eviction of an expired entry. *)
Definition getSession (now : Z) (token : string) (st : Store)
  : option Session * Store :=
  match validSessions st !! token with
  | None => (None, st)
  | Some s =>
      if now <? expiresAt s then (Some s, st)
      else (None,
            {| validSessions := delete token (validSessions st);
               wsConnectionTokens := wsConnectionTokens st;
               drawn := drawn st |})
  end.

(** Modelled from the spec: [invalidate(token) -> void] of §4.2. *)
Definition invalidateSession (token : string) (st : Store) : Store :=
  {| validSessions := delete token (validSessions st);
     wsConnectionTokens := wsConnectionTokens st;
     drawn := drawn st |}.

(** *** ConnectionTokenIssuer *)

(** Modelled from the spec: the tokens the store holds, session tokens and
    connection tokens alike. *)
Definition tokensInUse (st : Store) : gset string :=
  dom (validSessions st) ∪ dom (wsConnectionTokens st).

(** Modelled from the spec: a "fresh unguessable token" (§4.3), "never
    equal" to a session token (§3): the first of the next draws of the
    entropy source, from draw [i] on, that is not in [taken], together with
    the number of the draw after it.  A source that collides [fuel] times
    in a row has failed (§4.2 calls that fatal); the search is cut off
    there, with a token outside [taken] all the same. *)
Fixpoint drawFresh (rand : nat → string) (taken : gset string) (fuel i : nat)
  : string * nat :=
  match fuel with
  | O => (fresh taken, i)
  | S fuel' =>
      if decide (rand i ∈ taken) then drawFresh rand taken fuel' (S i)
      else (rand i, S i)
  end.

(** Modelled from the spec: the token generation and recording of §4.3
    [issue], with the arity of the call in the [/token] handler. *)
Definition createWsConnectionToken (cfg : Config) (now : Z) (st : Store)
  : string * Store :=
  let taken := tokensInUse st in
  let draw := drawFresh (randomToken cfg) taken (S (size taken)) (drawn st) in
  (draw.1,
   {| validSessions := validSessions st;
      wsConnectionTokens :=
        <[draw.1 := {| wsExpiresAt := now + WS_TOKEN_MAX_AGE |}]>
          (wsConnectionTokens st);
      drawn := draw.2 |}).

(** Modelled from the spec: [redeem(connectionToken) -> bool] of §4.3. *)
Definition validateWsConnectionToken (now : Z) (token : string) (st : Store) : bool :=
  match wsConnectionTokens st !! token with
  | Some c => now <? wsExpiresAt c
  | None => false
  end.

(** Modelled from the spec: the cookie attributes of §6; the [/logout]
    handler spells out the same four when it clears the cookie. *)
Definition getSessionCookieOptions (cfg : Config) : Express.CookieOptions :=
  {| Express.httpOnly := true;
     Express.secure := production cfg;
     Express.sameSite := "strict";
     Express.path := "/" |}.

(** Modelled from the spec: the cookie name "fixed by configuration" (§6). *)
Definition getSessionCookieName (cfg : Config) : string :=
  SESSION_COOKIE_NAME cfg.

(** *** AuthGate *)

(** Modelled from the spec: the reasons and outcomes of §4.4 and §7. *)
Inductive Reason :=
| MissingCredentials
| InvalidApiKey
| InvalidOrExpiredSession.

(** Modelled from the spec: [Authenticated | Unauthenticated(reason)]. *)
Inductive AuthResult :=
| Authenticated
| Unauthenticated (reason : Reason).

(** Modelled from the spec: a candidate credential, an API key or a
    session token. *)
Inductive Credential :=
| ApiKeyCredential (key : string)
| SessionCredential (token : string).

(** Modelled from the spec: the three credential channels of §4.4 and §6
    as extractors, "given a request, optionally produce a candidate
    credential" (§9).  The API key travels in the [x-api-key] header, as
    in the unit tests of [authMiddleware]. *)
Definition apiKeyHeader (req : Express.Request) : option Credential :=
  ApiKeyCredential <$> asTruthy (Express.headers req !! "x-api-key").

(** Modelled from the spec: the session cookie as a credential channel. *)
Definition sessionCookie (cfg : Config) (req : Express.Request) : option Credential :=
  SessionCredential <$>
    asTruthy (Express.cookies req ≫= λ c, c !! SESSION_COOKIE_NAME cfg).

(** Modelled from the spec: the session-token header as a credential
    channel. *)
Definition sessionTokenHeader (cfg : Config) (req : Express.Request)
  : option Credential :=
  SessionCredential <$>
    asTruthy (Express.headers req !! SESSION_TOKEN_HEADER cfg).

(** Modelled from the spec: the precedence of §4.4, (1) header API key,
    (2) session cookie, (3) session-token header. *)
Definition extractors (cfg : Config) : list (Express.Request → option Credential) :=
  [apiKeyHeader; sessionCookie cfg; sessionTokenHeader cfg].

(** Modelled from the spec: the gate "stops at the first
    structurally-present credential, independent of validity" (§9). *)
Fixpoint firstPresent (es : list (Express.Request → option Credential))
  (req : Express.Request) : option Credential :=
  match es with
  | [] => None
  | e :: es' =>
      match e req with
      | Some c => Some c
      | None => firstPresent es' req
      end
  end.

(** Modelled from the spec: the decision function [authenticate] of §4.4. *)
Definition authenticate (cfg : Config) (now : Z) (req : Express.Request)
  (st : Store) : AuthResult * Store :=
  match firstPresent (extractors cfg) req with
  | None => (Unauthenticated MissingCredentials, st)
  | Some (ApiKeyCredential key) =>
      if validateApiKey (API_KEY cfg) key then (Authenticated, st)
      else (Unauthenticated InvalidApiKey, st)
  | Some (SessionCredential token) =>
      match getSession now token st with
      | (Some _, st') => (Authenticated, st')
      | (None, st') => (Unauthenticated InvalidOrExpiredSession, st')
      end
  end.

(** Modelled from the spec: the read-only status check of §4.4, which
    "uses the same decision function" and "only reports a boolean". *)
Definition isRequestAuthenticated (cfg : Config) (now : Z)
  (req : Express.Request) (st : Store) : bool * Store :=
  match authenticate cfg now req st with
  | (Authenticated, st') => (true, st')
  | (Unauthenticated _, st') => (false, st')
  end.

(** Modelled from the spec: the credential that decided came in the
    session cookie, that is, there is no API-key header before it. *)
Definition decidedByCookie (cfg : Config) (req : Express.Request) : bool :=
  match apiKeyHeader req with
  | Some _ => false
  | None => bool_decide (is_Some (sessionCookie cfg req))
  end.

(** Modelled from the spec: the 401 of the gate, §6. *)
Definition rejectUnauthenticated : Express.M Store unit :=
  Express.status 401;;
  Express.sendJson (Express.failure "Authentication required.").

(** Modelled from the spec: the 403 of the gate, §6. *)
Definition rejectInvalid : Express.M Store unit :=
  Express.status 403;;
  Express.sendJson (Express.failure "Invalid API key.").

(** Modelled from the spec: the gating middleware of §4.4 and §6 (its
    source is absent; its unit tests fix the replies to a request without
    credentials and to a request with an [x-api-key] header).  On a session
    credential that is unknown or expired the specification has two
    sentences: §4.4 and §6 map every reason other than
    [MissingCredentials] to the 403, §8 has a request with a stale session
    cookie answered 401.  §8 is the one that names the case, so a stale
    cookie is answered with the 401 of §6, and the 403 of §4.4 is kept for
    the session-token header, about which §8 says nothing. *)
Definition authMiddleware (cfg : Config) (now : Z) (req : Express.Request)
  : Express.M Store unit :=
  result ← Express.onLib (authenticate cfg now req);
  match result with
  | Authenticated => Express.next
  | Unauthenticated MissingCredentials => rejectUnauthenticated
  | Unauthenticated InvalidApiKey => rejectInvalid
  | Unauthenticated InvalidOrExpiredSession =>
      if decidedByCookie cfg req then rejectUnauthenticated else rejectInvalid
  end.

(** *** The store as a transition system *)

(** Modelled from the spec: "all mutation is funneled through the store's
    operations" (§5), these four. *)
Inductive step (cfg : Config) : Store → Store → Prop :=
| step_createSession now st :
    step cfg st (createSession cfg now st).2
| step_getSession now token st :
    step cfg st (getSession now token st).2
| step_invalidateSession token st :
    step cfg st (invalidateSession token st)
| step_createWsConnectionToken now st :
    step cfg st (createWsConnectionToken cfg now st).2.

(** *** The words of the claims about the gate *)

(** The request carries a credential of some kind: a non-empty API-key
    header, session cookie or session-token header. *)
Definition carriesCredential (cfg : Config) (req : Express.Request) : bool :=
  truthy (Express.headers req !! "x-api-key")
  || truthy (Express.cookies req ≫= λ c, c !! SESSION_COOKIE_NAME cfg)
  || truthy (Express.headers req !! SESSION_TOKEN_HEADER cfg).

(** A session token is live: the store has it and it has not expired. *)
Definition sessionLive (now : Z) (token : string) (st : Store) : bool :=
  match validSessions st !! token with
  | Some s => now <? expiresAt s
  | None => false
  end.

Definition credentialValid (cfg : Config) (now : Z) (st : Store)
  (c : Credential) : bool :=
  match c with
  | ApiKeyCredential key => validateApiKey (API_KEY cfg) key
  | SessionCredential token => sessionLive now token st
  end.

(** The session token a request presents: its session cookie, else its
    session-token header. *)
Definition presentedSessionToken (cfg : Config) (req : Express.Request)
  : option string :=
  match asTruthy (Express.cookies req ≫= λ c, c !! SESSION_COOKIE_NAME cfg) with
  | Some t => Some t
  | None => asTruthy (Express.headers req !! SESSION_TOKEN_HEADER cfg)
  end.

(** The request is authenticated, in the words of the claims: of the
    credentials it presents, the first in the order API-key header, session
    cookie, session-token header is the configured secret, respectively the
    token of a live session.  Read off the request and the store, without
    the gate. *)
Definition requestAuthentic (cfg : Config) (now : Z) (req : Express.Request)
  (st : Store) : bool :=
  match asTruthy (Express.headers req !! "x-api-key") with
  | Some key => bool_decide (API_KEY cfg = Some key)
  | None =>
      match presentedSessionToken cfg req with
      | Some token => sessionLive now token st
      | None => false
      end
  end.

(** "The presented session token is absent or expired." *)
Definition sessionAbsentOrExpired (cfg : Config) (now : Z)
  (req : Express.Request) (st : Store) : bool :=
  match presentedSessionToken cfg req with
  | Some t => negb (sessionLive now t st)
  | None => true
  end.

End Auth.

(** ** The auth routes *)

Module AuthRoutes.
Import Express.

(** What the routes file imports from [lib/auth.ts], over the library's
    state [W].  The handlers are written against this interface only. *)
Class AuthLib (W : Type) := {
  validateApiKey : string → W → bool * W;
  createSession : W → string * W;
  invalidateSession : string → W → W;
  getSessionCookieOptions : CookieOptions;
  getSessionCookieName : string;
  isRequestAuthenticated : Request → W → bool * W;
  createWsConnectionToken : W → string * W;
}.

Inductive Method := GET | POST.

(** The reply of [/token] that carries a connection token. *)
Definition tokenReply (token : string) : Response :=
  replied 200 []
    (JObj [("success", JBool true);
           ("token", JStr token);
           ("expiresIn", JNum 300)]) [].

Section Handlers.
Context {W : Type} {L : AuthLib W}.

(** [router.get('/status', ...)] *)
Definition getStatus (req : Request) : M W unit :=
  authenticated ← calling EvIsRequestAuthenticated (isRequestAuthenticated req);
  sendJson (JObj [("success", JBool true);
                  ("authenticated", JBool authenticated);
                  ("required", JBool true)]).

(** [router.post('/login', ...)] *)
Definition postLogin (req : Request) : M W unit :=
  match asTruthy (body_apiKey req) with
  | None =>
      status 400;;
      sendJson (failure "API key is required.")
  | Some apiKey =>
      valid ← calling (EvValidateApiKey apiKey) (validateApiKey apiKey);
      if negb valid then
        status 401;;
        sendJson (failure "Invalid API key.")
      else
        sessionToken ← calling EvCreateSession createSession;
        let cookieOptions := getSessionCookieOptions in
        let cookieName := getSessionCookieName in
        cookie cookieName sessionToken cookieOptions;;
        sendJson (JObj [("success", JBool true);
                        ("message", JStr "Logged in successfully.");
                        ("token", JStr sessionToken)])
  end.

(** [router.get('/token', ...)] *)
Definition getToken (req : Request) : M W unit :=
  authenticated ← calling EvIsRequestAuthenticated (isRequestAuthenticated req);
  if negb authenticated then
    status 401;;
    sendJson (failure "Authentication required.")
  else
    wsToken ← calling EvCreateWsConnectionToken createWsConnectionToken;
    sendJson (JObj [("success", JBool true);
                    ("token", JStr wsToken);
                    ("expiresIn", JNum 300)]).

(** [router.post('/logout', ...)]; [production] is
    [process.env.NODE_ENV === 'production']. *)
Definition postLogout (production : bool) (req : Request) : M W unit :=
  let cookieName := getSessionCookieName in
  let sessionToken := cookies req ≫= λ c, c !! cookieName in
  match asTruthy sessionToken with
  | Some sessionToken =>
      calling (EvInvalidateSession sessionToken)
        (λ w, (tt, invalidateSession sessionToken w))
  | None => mret tt
  end;;
  clearCookie cookieName
    {| httpOnly := true; secure := production;
       sameSite := "strict"; path := "/" |};;
  sendJson (JObj [("success", JBool true);
                  ("message", JStr "Logged out successfully.")]).

(** The reply of [/logout]: 200, the cookie cleared. *)
Definition loggedOut (production : bool) : Response :=
  replied 200 []
    (JObj [("success", JBool true); ("message", JStr "Logged out successfully.")])
    [ClearCookie getSessionCookieName
       {| httpOnly := true; secure := production;
          sameSite := "strict"; path := "/" |}].

(** [createAuthRoutes]: the router, as the table of its four routes. *)
Definition createAuthRoutes (production : bool) (method : Method)
  (route : string) : option (Request → M W unit) :=
  match method with
  | GET =>
      if String.eqb route "/status" then Some getStatus
      else if String.eqb route "/token" then Some getToken
      else None
  | POST =>
      if String.eqb route "/login" then Some postLogin
      else if String.eqb route "/logout" then Some (postLogout production)
      else None
  end.
End Handlers.

(** The interface as [lib/auth.ts] (module [Auth]) provides it to a
    request that arrives at time [now]. *)
Definition authLib (cfg : Auth.Config) (now : Z) : AuthLib Auth.Store :=
  {| validateApiKey key st := (Auth.validateApiKey (Auth.API_KEY cfg) key, st);
     createSession := Auth.createSession cfg now;
     invalidateSession := Auth.invalidateSession;
     getSessionCookieOptions := Auth.getSessionCookieOptions cfg;
     getSessionCookieName := Auth.getSessionCookieName cfg;
     isRequestAuthenticated := Auth.isRequestAuthenticated cfg now;
     createWsConnectionToken := Auth.createWsConnectionToken cfg now |}.

End AuthRoutes.

(** ** JavaScript strings and regular expressions *)

(** A JavaScript string is a sequence of UTF-16 code units. *)
Definition jsstring : Type := list N.

(** The code units of an ASCII literal of the source. *)
Definition js (s : string) : jsstring := N_of_ascii <$> list_ascii_of_string s.

Module RegExp.
Local Open Scope list_scope.

(** The fragment of the pattern language the handler's three literals
    use.  All three have exactly one capture group, [Group]. *)
Inductive regex :=
| Eps
| Class (p : N → bool)
| Seq (r1 r2 : regex)
| Alt (r1 r2 : regex)
| Star (greedy : bool) (r : regex)
| Group (r : regex)
| Lookahead (r : regex)
| AssertEnd.

Definition Chr (c : N) : regex := Class (N.eqb c).

Fixpoint Lit (s : jsstring) : regex :=
  match s with
  | [] => Eps
  | c :: s' => Seq (Chr c) (Lit s')
  end.

(** [r?], [r+] and [r{0,2}], all greedy. *)
Definition Opt (r : regex) : regex := Alt r Eps.
Definition Plus (r : regex) : regex := Seq r (Star true r).
Definition UpTo2 (r : regex) : regex := Opt (Seq r (Opt r)).

(** [\s]: WhiteSpace and LineTerminator code units. *)
Definition isSpace (c : N) : bool :=
  (bool_decide (c ∈ [9; 10; 11; 12; 13; 32; 160; 5760; 8232; 8233; 8239;
                     8287; 12288; 65279])
   || ((8192 <=? c) && (c <=? 8202)))%N.

(** What remains to be matched: a function of the rest of the input and
    of the text the group has captured. *)
Definition Cont (R : Type) : Type := jsstring → option jsstring → option R.

(** The iterations of a star whose body is matched by [body].  A greedy
    star tries one more iteration before the continuation, a lazy one the
    continuation first; an iteration that consumes nothing is rejected.
    [fuel] bounds the number of iterations; the length of the input is
    always enough, as every iteration consumes a code unit. *)
Fixpoint starLoop {R : Type} (body : jsstring → option jsstring → Cont R → option R)
  (greedy : bool) (k : Cont R) (fuel : nat) (s : jsstring) (c : option jsstring)
  : option R :=
  let again (_ : unit) :=
    match fuel with
    | O => None
    | S fuel' =>
        body s c (λ s' c',
            if decide (length s' < length s)%nat
            then starLoop body greedy k fuel' s' c' else None)
    end in
  if greedy then
    match again tt with
    | Some x => Some x
    | None => k s c
    end
  else
    match k s c with
    | Some x => Some x
    | None => again tt
    end.

(** The backtracking matcher, in continuation-passing style.  [s] is the
    input from the current position on, [c] the text captured by the
    group so far, [k] what remains to be matched.  Alternatives are tried
    left to right; a lookahead is matched on its own (no backtracking
    into it) and consumes nothing. *)
Fixpoint m {R : Type} (r : regex) (s : jsstring) (c : option jsstring)
  (k : Cont R) : option R :=
  match r with
  | Eps => k s c
  | Class p =>
      match s with
      | x :: s' => if p x then k s' c else None
      | [] => None
      end
  | Seq r1 r2 => m r1 s c (λ s' c', m r2 s' c' k)
  | Alt r1 r2 =>
      match m r1 s c k with
      | Some x => Some x
      | None => m r2 s c k
      end
  | Star greedy r' => starLoop (m r') greedy k (length s) s c
  | Group r' =>
      m r' s c (λ s' _, k s' (Some (take (length s - length s') s)))
  | Lookahead r' =>
      match m r' s c (λ _ c', Some c') with
      | Some c' => k s c'
      | None => None
      end
  | AssertEnd =>
      match s with
      | [] => k s c
      | _ :: _ => None
      end
  end.

(** The match array: element 0 (the matched text) and element 1 (the
    group, [None] for [undefined]). *)
Definition MatchArray : Type := jsstring * option jsstring.

Definition matchAt (r : regex) (s : jsstring) : option MatchArray :=
  m r s None (λ s' c, Some (take (length s - length s') s, c)).

(** [String.prototype.match] with a regular expression without the [g]
    flag: the leftmost position at which the pattern matches, [None] for
    [null]. *)
Fixpoint exec (r : regex) (s : jsstring) : option MatchArray :=
  match matchAt r s with
  | Some a => Some a
  | None =>
      match s with
      | [] => None
      | _ :: s' => exec r s'
      end
  end.

(** *** What a pattern matches

    [matches r u rest c c']: at a position where the input continues with
    [u ++ rest], the pattern [r] can match the text [u]; the group holds
    [c] before and [c'] after. *)
Inductive matches : regex → jsstring → jsstring → option jsstring →
                    option jsstring → Prop :=
| matches_Eps rest c :
    matches Eps [] rest c c
| matches_Class p x rest c :
    p x = true →
    matches (Class p) [x] rest c c
| matches_Seq r1 r2 u1 u2 rest c c1 c2 :
    matches r1 u1 (u2 ++ rest) c c1 →
    matches r2 u2 rest c1 c2 →
    matches (Seq r1 r2) (u1 ++ u2) rest c c2
| matches_Alt_l r1 r2 u rest c c' :
    matches r1 u rest c c' →
    matches (Alt r1 r2) u rest c c'
| matches_Alt_r r1 r2 u rest c c' :
    matches r2 u rest c c' →
    matches (Alt r1 r2) u rest c c'
| matches_Star_done greedy r rest c :
    matches (Star greedy r) [] rest c c
| matches_Star_more greedy r u1 u2 rest c c1 c2 :
    u1 ≠ [] →
    matches r u1 (u2 ++ rest) c c1 →
    matches (Star greedy r) u2 rest c1 c2 →
    matches (Star greedy r) (u1 ++ u2) rest c c2
| matches_Group r u rest c c' :
    matches r u rest c c' →
    matches (Group r) u rest c (Some u)
| matches_Lookahead r u rest c c' :
    matches r u rest c c' →
    matches (Lookahead r) [] (u ++ rest) c c'
| matches_AssertEnd c :
    matches AssertEnd [] [] c c.

Fixpoint noLookahead (r : regex) : bool :=
  match r with
  | Eps | Class _ | AssertEnd => true
  | Seq r1 r2 | Alt r1 r2 => noLookahead r1 && noLookahead r2
  | Star _ r' | Group r' => noLookahead r'
  | Lookahead _ => false
  end.

(** Somewhere in [s] the pattern matches [w], capturing [g]. *)
Definition occursIn (r : regex) (s : jsstring) (w : jsstring)
  (g : option jsstring) : Prop :=
  ∃ pre post, s = pre ++ w ++ post ∧ matches r w post None g.

End RegExp.

(** ** [routes/features/routes/validate-feature.ts] *)

Module ValidateFeature.
Import RegExp.
Local Open Scope list_scope.

(** What a call into a collaborating service does: return or throw. *)
Inductive outcome (A : Type) : Type :=
| Returns (a : A)
| Throws (message : jsstring).
Arguments Returns {A} a.
Arguments Throws {A} message.

Record Feature := {
  title : jsstring;
  category : jsstring;
  description : jsstring;
}.

Record AgentSession := { id : jsstring }.

(** [result] of [agentService.sendMessage]: [result.success] and
    [result.message?.content]. *)
Record AgentMessage := { content : option jsstring }.
Record SendResult := {
  success : bool;
  message : option AgentMessage;
}.

(** [FeatureLoader] and [AgentService] as the handler uses them, over the
    services' state [S]. *)
Class Services (S : Type) := {
  featureLoader_get :
    jsstring → jsstring → S → outcome (option Feature) * S;
  agentService_createSession :
    jsstring → jsstring → jsstring → S → outcome AgentSession * S;
  agentService_startConversation :
    jsstring → jsstring → S → outcome unit * S;
  agentService_sendMessage :
    jsstring → jsstring → jsstring → S → outcome SendResult * S;
  agentService_deleteSession :
    jsstring → S → outcome unit * S;
}.

(** [req.body] after JSON parsing. *)
Record ValidateFeatureRequest := {
  projectPath : jsstring;
  featureId : jsstring;
}.

Record Reply := {
  code : Z;
  body : json jsstring;
}.

Definition failure (error : jsstring) : json jsstring :=
  JObj [("success", JBool false); ("error", JStr error)].

Definition validationPrompt (feature : Feature) : jsstring :=
  js "Your task is to review this feature and the existing codebase and determine whether or not it has been fully/partially/not implemented.

Feature Details:
- Title: " ++ title feature ++ js "
- Category: " ++ category feature ++ js "
- Description: " ++ description feature ++ js "

Please analyze the codebase and provide your assessment in the following format (plain text, no markdown):

ASSESSMENT: [FULLY_IMPLEMENTED|PARTIALLY_IMPLEMENTED|NOT_IMPLEMENTED]
REASONING: [Brief explanation of your decision]
EVIDENCE: [Specific code/files that support your assessment]

Be thorough in your analysis. Check for:
- Related components, functions, or classes
- Test files
- Configuration changes
- Documentation updates
- Any other relevant implementation details

If the feature is FULLY_IMPLEMENTED, it should be complete and ready for approval.
If PARTIALLY_IMPLEMENTED, explain what's missing.
If NOT_IMPLEMENTED, explain why you believe this feature hasn't been addressed.".

Definition FULLY_IMPLEMENTED : jsstring := js "FULLY_IMPLEMENTED".
Definition PARTIALLY_IMPLEMENTED : jsstring := js "PARTIALLY_IMPLEMENTED".
Definition NOT_IMPLEMENTED : jsstring := js "NOT_IMPLEMENTED".

Definition asterisk : N := 42.
Definition lineFeed : N := 10.

(** The common shape of the handler's patterns: a keyword, white space,
    at most two asterisks, the group, at most two asterisks. *)
Definition keyed (keyword : jsstring) (group : regex) : regex :=
  Seq (Lit keyword)
    (Seq (Star true (Class isSpace))
       (Seq (UpTo2 (Chr asterisk))
          (Seq (Group group) (UpTo2 (Chr asterisk))))).

(** [/ASSESSMENT:\s*\*{0,2}(FULLY_IMPLEMENTED|PARTIALLY_IMPLEMENTED|NOT_IMPLEMENTED)\*{0,2}/] *)
Definition assessmentRe : regex :=
  Seq (Lit (js "ASSESSMENT:"))
    (Seq (Star true (Class isSpace))
       (Seq (UpTo2 (Chr asterisk))
          (Seq (Group (Alt (Lit FULLY_IMPLEMENTED)
                         (Alt (Lit PARTIALLY_IMPLEMENTED)
                            (Lit NOT_IMPLEMENTED))))
             (UpTo2 (Chr asterisk))))).

(** [/REASONING:\s*\*{0,2}([^\n*]+)\*{0,2}/] *)
Definition reasoningRe : regex :=
  Seq (Lit (js "REASONING:"))
    (Seq (Star true (Class isSpace))
       (Seq (UpTo2 (Chr asterisk))
          (Seq (Group (Plus (Class (λ c, negb (N.eqb c lineFeed || N.eqb c asterisk)))))
             (UpTo2 (Chr asterisk))))).

(** [/EVIDENCE:\s*\*{0,2}([\s\S]*?)\*{0,2}(?=\n\n|$)/] *)
Definition evidenceRe : regex :=
  Seq (Lit (js "EVIDENCE:"))
    (Seq (Star true (Class isSpace))
       (Seq (UpTo2 (Chr asterisk))
          (Seq (Group (Star false (Class (λ _, true))))
             (Seq (UpTo2 (Chr asterisk))
                (Lookahead (Alt (Lit [lineFeed; lineFeed]) AssertEnd)))))).

(** [match?.[1] || fallback]: the group when there is a match and the
    group is a non-empty string, the fallback otherwise. *)
Definition groupOr (a : option MatchArray) (fallback : jsstring) : jsstring :=
  match a with
  | Some (_, Some (x :: g)) => x :: g
  | _ => fallback
  end.

(** [result.message?.content || ''] *)
Definition responseText (result : SendResult) : jsstring :=
  match message result with
  | Some msg => default [] (content msg)
  | None => []
  end.

Definition assessmentLabels : list jsstring :=
  [FULLY_IMPLEMENTED; PARTIALLY_IMPLEMENTED; NOT_IMPLEMENTED].

(** The response has a parseable ASSESSMENT line with this label:
    [ASSESSMENT:], any white space, at most two asterisks, the label. *)
Definition assessmentLine (response label : jsstring) : Prop :=
  ∃ pre ws stars post,
    response = pre ++ js "ASSESSMENT:" ++ ws ++ stars ++ label ++ post
    ∧ Forall (λ x, isSpace x = true) ws
    ∧ stars ∈ [[]; [asterisk]; [asterisk; asterisk]]
    ∧ label ∈ assessmentLabels.

Definition hasAssessment (response : jsstring) : Prop :=
  ∃ label, assessmentLine response label.

Section Handler.
Context {S : Type} {V : Services S}.

(** The handler [createValidateFeatureHandler] returns.  Every path ends
    in exactly one reply; [res.json] without [res.status] replies 200.
    The outer [catch] turns a throw of [featureLoader.get] or of the last
    [deleteSession] into a 500 with the error's message. *)
Definition createValidateFeatureHandler (req : ValidateFeatureRequest) (s : S)
  : Reply * S :=
  match featureLoader_get (projectPath req) (featureId req) s with
  | (Throws error, s) => ({| code := 500; body := failure error |}, s)
  | (Returns None, s) =>
      ({| code := 404; body := failure (js "Feature not found") |}, s)
  | (Returns (Some feature), s) =>
      let sessionFailed :=
        {| code := 500; body := failure (js "Failed to create agent session") |} in
      match agentService_createSession
              (js "Feature Validation: " ++ title feature)
              (projectPath req) (projectPath req) s with
      | (Throws _, s) => (sessionFailed, s)
      | (Returns session, s) =>
      match agentService_startConversation (id session) (projectPath req) s with
      | (Throws _, s) => (sessionFailed, s)
      | (Returns _, s) =>
      match agentService_sendMessage (id session) (validationPrompt feature)
              (projectPath req) s with
      | (Throws _, s) =>
          let '(_, s) := agentService_deleteSession (id session) s in
          ({| code := 500;
              body := failure (js "Failed to send message to agent") |}, s)
      | (Returns result, s) =>
          if negb (success result) then
            let '(_, s) := agentService_deleteSession (id session) s in
            ({| code := 500;
                body := failure (js "Failed to validate feature") |}, s)
          else
            let response := responseText result in
            let assessmentMatch := exec assessmentRe response in
            let reasoningMatch := exec reasoningRe response in
            let evidenceMatch := exec evidenceRe response in
            let assessment := groupOr assessmentMatch NOT_IMPLEMENTED in
            let reasoning :=
              groupOr reasoningMatch (js "Unable to determine reasoning") in
            let evidence :=
              groupOr evidenceMatch (js "No specific evidence provided") in
            match agentService_deleteSession (id session) s with
            | (Throws error, s) => ({| code := 500; body := failure error |}, s)
            | (Returns _, s) =>
                ({| code := 200;
                    body :=
                      JObj [("success", JBool true);
                            ("validation",
                              JObj [("assessment", JStr assessment);
                                    ("reasoning", JStr reasoning);
                                    ("evidence", JStr evidence);
                                    ("fullResponse", JStr response)])] |}, s)
            end
      end end end
  end.
End Handler.

End ValidateFeature.

(** ** Fixtures from the unit tests *)

Module Fixtures.
Import Express.

(** [process.env.AUTOMAKER_API_KEY = 'test-secret-key'], an entropy source
    that never repeats, and sessions that last thirty days. *)
Definition testConfig : Auth.Config :=
  {| Auth.API_KEY := Some "test-secret-key";
     Auth.SESSION_COOKIE_NAME := "automaker_session";
     Auth.SESSION_TOKEN_HEADER := "x-session-token";
     Auth.SESSION_MAX_AGE := 30 * 24 * 60 * 60;
     Auth.production := false;
     Auth.randomToken := λ n, "tok-" +:+ pretty n |}.

(** [createMockExpressContext()]: no headers, no cookies, an empty body. *)
Definition mockRequest : Request :=
  {| headers := ∅; cookies := None; body_apiKey := None |}.

Definition withApiKeyHeader (key : string) : Request :=
  {| headers := {["x-api-key" := key]}; cookies := None; body_apiKey := None |}.

Definition withCookie (token : string) : Request :=
  {| headers := ∅;
     cookies := Some {["automaker_session" := token]};
     body_apiKey := None |}.

Definition withSessionTokenHeader (token : string) : Request :=
  {| headers := {["x-session-token" := token]};
     cookies := None;
     body_apiKey := None |}.

Definition withBodyKey (key : string) : Request :=
  {| headers := ∅; cookies := None; body_apiKey := Some key |}.

(** Collaborators of the validate-feature handler that find the feature,
    never throw, and whose agent answers [text]. *)
Definition agentAnswers (text : jsstring) : ValidateFeature.Services unit :=
  {| ValidateFeature.featureLoader_get _ _ s :=
       (ValidateFeature.Returns
          (Some {| ValidateFeature.title := js "Dark mode";
                   ValidateFeature.category := js "UI";
                   ValidateFeature.description := js "Add a dark theme" |}), s);
     ValidateFeature.agentService_createSession _ _ _ s :=
       (ValidateFeature.Returns {| ValidateFeature.id := js "session-1" |}, s);
     ValidateFeature.agentService_startConversation _ _ s :=
       (ValidateFeature.Returns tt, s);
     ValidateFeature.agentService_sendMessage _ _ _ s :=
       (ValidateFeature.Returns
          {| ValidateFeature.success := true;
             ValidateFeature.message :=
               Some {| ValidateFeature.content := Some text |} |}, s);
     ValidateFeature.agentService_deleteSession _ s :=
       (ValidateFeature.Returns tt, s) |}.

Definition validateRequest : ValidateFeature.ValidateFeatureRequest :=
  {| ValidateFeature.projectPath := js "/project";
     ValidateFeature.featureId := js "feature-1" |}.

Definition agentText : jsstring :=
  js "ASSESSMENT: **PARTIALLY_IMPLEMENTED**
REASONING: The toggle exists but no styles are applied.
EVIDENCE: src/theme.ts

Done.".

End Fixtures.

(** ** Reading a reply *)

(** The [success] field of a JSON body, when it has one that is a boolean. *)
Definition successFlag (body : json string) : option bool :=
  match body with
  | JObj fields =>
      match List.find (λ field, String.eqb field.1 "success") fields with
      | Some (_, JBool b) => Some b
      | _ => None
      end
  | _ => None
  end.

(** ** The collaborators' calls, logged *)

Module ServiceLog.
Import ValidateFeature.
Local Open Scope list_scope.

(** A call the validate-feature handler makes, with its arguments. *)
Inductive Call :=
| FeatureLoaderGet (projectPath featureId : jsstring)
| AgentCreateSession (name projectPath workingDirectory : jsstring)
| AgentStartConversation (sessionId workingDirectory : jsstring)
| AgentSendMessage (sessionId message workingDirectory : jsstring)
| AgentDeleteSession (sessionId : jsstring).

(** What the call came back with. *)
Inductive Result :=
| Threw (message : jsstring)
| GotFeature (feature : option Feature)
| GotSession (session : AgentSession)
| GotResult (result : SendResult)
| Done.

Definition Entry : Type := Call * Result.

Definition resultOf {A : Type} (inj : A → Result) (o : outcome A) : Result :=
  match o with
  | Returns a => inj a
  | Throws message => Threw message
  end.

(** The operation [op], with the call and its result appended to the log. *)
Definition logged {S A : Type} (c : Call) (inj : A → Result)
  (op : S → outcome A * S) (sl : S * list Entry) : outcome A * (S * list Entry) :=
  let '(o, s) := op sl.1 in
  (o, (s, sl.2 ++ [(c, resultOf inj o)])).

(** The services [V], each call logged. *)
Definition logging {S : Type} (V : Services S) : Services (S * list Entry) :=
  {| featureLoader_get projectPath featureId :=
       logged (FeatureLoaderGet projectPath featureId) GotFeature
         (featureLoader_get projectPath featureId);
     agentService_createSession name projectPath workingDirectory :=
       logged (AgentCreateSession name projectPath workingDirectory) GotSession
         (agentService_createSession name projectPath workingDirectory);
     agentService_startConversation sessionId workingDirectory :=
       logged (AgentStartConversation sessionId workingDirectory) (λ _, Done)
         (agentService_startConversation sessionId workingDirectory);
     agentService_sendMessage sessionId message workingDirectory :=
       logged (AgentSendMessage sessionId message workingDirectory) GotResult
         (agentService_sendMessage sessionId message workingDirectory);
     agentService_deleteSession sessionId :=
       logged (AgentDeleteSession sessionId) (λ _, Done)
         (agentService_deleteSession sessionId) |}.

(** The handler's reply and the log of its calls, from services state [s]. *)
Definition replyAndCalls {S : Type} (V : Services S)
  (req : ValidateFeatureRequest) (s : S) : Reply * list Entry :=
  let '(reply, (_, log)) :=
    createValidateFeatureHandler (V := logging V) req (s, []) in
  (reply, log).

(** The calls up to and including [agentService.sendMessage], for a feature
    and a session. *)
Definition getCall (req : ValidateFeatureRequest) : Call :=
  FeatureLoaderGet (projectPath req) (featureId req).

Definition createCall (req : ValidateFeatureRequest) (feature : Feature) : Call :=
  AgentCreateSession (js "Feature Validation: " ++ title feature)
    (projectPath req) (projectPath req).

Definition startCall (req : ValidateFeatureRequest) (session : AgentSession) : Call :=
  AgentStartConversation (id session) (projectPath req).

Definition sendCall (req : ValidateFeatureRequest) (feature : Feature)
  (session : AgentSession) : Call :=
  AgentSendMessage (id session) (validationPrompt feature) (projectPath req).

Definition deleteCall (session : AgentSession) : Call :=
  AgentDeleteSession (id session).

Definition replyWith (code : Z) (error : string) : Reply :=
  {| code := code; body := failure (js error) |}.

(** The body of the 200 reply for an agent result. *)
Definition validated (result : SendResult) : Reply :=
  let response := responseText result in
  {| code := 200;
     body :=
       JObj [("success", JBool true);
             ("validation",
               JObj [("assessment",
                       JStr (groupOr (RegExp.exec assessmentRe response)
                               NOT_IMPLEMENTED));
                     ("reasoning",
                       JStr (groupOr (RegExp.exec reasoningRe response)
                               (js "Unable to determine reasoning")));
                     ("evidence",
                       JStr (groupOr (RegExp.exec evidenceRe response)
                               (js "No specific evidence provided")));
                     ("fullResponse", JStr response)])] |}.

(** A clean-up call came back: it returned or it threw. *)
Definition cleanedUp (r : Result) : Prop := r = Done ∨ ∃ message, r = Threw message.

(** The runs of the handler: the log of its calls and the reply, path by
    path in source order. *)
Inductive Run (req : ValidateFeatureRequest) : list Entry → Reply → Prop :=
| Run_loadThrows message :
    Run req [(getCall req, Threw message)]
      {| code := 500; body := failure message |}
| Run_notFound :
    Run req [(getCall req, GotFeature None)]
      (replyWith 404 "Feature not found")
| Run_createThrows feature message :
    Run req [(getCall req, GotFeature (Some feature));
             (createCall req feature, Threw message)]
      (replyWith 500 "Failed to create agent session")
| Run_startThrows feature session message :
    Run req [(getCall req, GotFeature (Some feature));
             (createCall req feature, GotSession session);
             (startCall req session, Threw message)]
      (replyWith 500 "Failed to create agent session")
| Run_sendThrows feature session message cleanup :
    cleanedUp cleanup →
    Run req [(getCall req, GotFeature (Some feature));
             (createCall req feature, GotSession session);
             (startCall req session, Done);
             (sendCall req feature session, Threw message);
             (deleteCall session, cleanup)]
      (replyWith 500 "Failed to send message to agent")
| Run_unsuccessful feature session result cleanup :
    success result = false →
    cleanedUp cleanup →
    Run req [(getCall req, GotFeature (Some feature));
             (createCall req feature, GotSession session);
             (startCall req session, Done);
             (sendCall req feature session, GotResult result);
             (deleteCall session, cleanup)]
      (replyWith 500 "Failed to validate feature")
| Run_cleanupThrows feature session result message :
    success result = true →
    Run req [(getCall req, GotFeature (Some feature));
             (createCall req feature, GotSession session);
             (startCall req session, Done);
             (sendCall req feature session, GotResult result);
             (deleteCall session, Threw message)]
      {| code := 500; body := failure message |}
| Run_validated feature session result :
    success result = true →
    Run req [(getCall req, GotFeature (Some feature));
             (createCall req feature, GotSession session);
             (startCall req session, Done);
             (sendCall req feature session, GotResult result);
             (deleteCall session, Done)]
      (validated result).

(** Stand-ins for a feature and a session on the runs that have none. *)
Definition noFeature : Feature := {| title := []; category := []; description := [] |}.
Definition noSession : AgentSession := {| id := [] |}.

Definition isDelete (e : Entry) : bool :=
  match e.1 with
  | AgentDeleteSession _ => true
  | _ => false
  end.

Definition isAgentCall (e : Entry) : bool :=
  match e.1 with
  | FeatureLoaderGet _ _ => false
  | _ => true
  end.

End ServiceLog.

(** ** The shape of the parsed fields *)

Module Parsed.
Import RegExp ValidateFeature.
Local Open Scope list_scope.

(** At most two asterisks. *)
Definition upToTwoAsterisks (stars : jsstring) : Prop :=
  stars ∈ [[]; [asterisk]; [asterisk; asterisk]].

Definition allSpace (ws : jsstring) : Prop := Forall (λ x, isSpace x = true) ws.

(** [[^\n*]]: any code unit but a line feed and an asterisk. *)
Definition inReasoning (c : N) : bool :=
  negb (N.eqb c lineFeed || N.eqb c asterisk).

(** A run of code units ends here: the input ends, or goes on with a code
    unit outside the class. *)
Definition endsRun (p : N → bool) (rest : jsstring) : Prop :=
  rest = [] ∨ ∃ x t, rest = x :: t ∧ p x = false.

(** A well-formed ASSESSMENT line with this label starts the text. *)
Definition lineAt (text label : jsstring) : Prop :=
  ∃ ws stars post,
    text = js "ASSESSMENT:" ++ ws ++ stars ++ label ++ post
    ∧ allSpace ws
    ∧ upToTwoAsterisks stars
    ∧ label ∈ assessmentLabels.

(** The text is at its end or at a blank line. *)
Definition atBlankLineOrEnd (post : jsstring) : Prop :=
  post = [] ∨ ∃ t, post = lineFeed :: lineFeed :: t.

End Parsed.

(** ** Scripted collaborators *)

Module Scenarios.
Import ValidateFeature.

(** Collaborators whose five operations come back as scripted. *)
Definition scripted (get : outcome (option Feature))
  (create : outcome AgentSession) (start : outcome unit)
  (send : outcome SendResult) (delete : outcome unit) : Services unit :=
  {| featureLoader_get _ _ s := (get, s);
     agentService_createSession _ _ _ s := (create, s);
     agentService_startConversation _ _ s := (start, s);
     agentService_sendMessage _ _ _ s := (send, s);
     agentService_deleteSession _ s := (delete, s) |}.

Definition darkMode : Feature :=
  {| title := js "Dark mode"; category := js "UI";
     description := js "Add a dark theme" |}.

Definition session1 : AgentSession := {| id := js "session-1" |}.

Definition answer (text : jsstring) : SendResult :=
  {| success := true; message := Some {| content := Some text |} |}.

Definition request : ValidateFeatureRequest :=
  {| projectPath := js "/project"; featureId := js "feature-1" |}.

(** Everything works and the agent answers [text]. *)
Definition allWell (text : jsstring) : Services unit :=
  scripted (Returns (Some darkMode)) (Returns session1) (Returns tt)
    (Returns (answer text)) (Returns tt).

(** The feature does not exist. *)
Definition unknownFeature : Services unit :=
  scripted (Returns None) (Returns session1) (Returns tt)
    (Returns (answer [])) (Returns tt).

(** The session is created, but starting the conversation throws. *)
Definition startFails : Services unit :=
  scripted (Returns (Some darkMode)) (Returns session1) (Throws (js "no memory"))
    (Returns (answer [])) (Returns tt).

(** The agent reports success but its result has no message. *)
Definition noText : Services unit :=
  scripted (Returns (Some darkMode)) (Returns session1) (Returns tt)
    (Returns {| success := true; message := None |}) (Returns tt).

(** A response with a remark, a first ASSESSMENT line and a second one. *)
Definition twoLines : jsstring :=
  js "Note: ASSESSMENT: *PARTIALLY_IMPLEMENTED* but later ASSESSMENT: FULLY_IMPLEMENTED".

(** Sending the message throws, and so does the clean-up. *)
Definition sendAndCleanupFail : Services unit :=
  scripted (Returns (Some darkMode)) (Returns session1) (Returns tt)
    (Throws (js "timeout")) (Throws (js "gone")).

End Scenarios.

(** * Properties *)

(** ** Truthiness *)

Lemma truthy_Some (s : string) : truthy (Some s) = true ↔ s ≠ "".
Proof.
  unfold truthy. destruct (String.eqb_spec s ""); simpl; split; congruence.
Qed.

Lemma truthy_false (x : option string) :
  truthy x = false ↔ x = None ∨ x = Some "".
Proof.
  destruct x as [s|]; simpl.
  - destruct (String.eqb_spec s "") as [->|Hne]; simpl.
    + split; auto.
    + split; [done|]. intros [|]; congruence.
  - split; auto.
Qed.

Lemma asTruthy_Some (x : option string) (s : string) :
  asTruthy x = Some s ↔ x = Some s ∧ s ≠ "".
Proof.
  unfold asTruthy. destruct (truthy x) eqn:E.
  - split.
    + intros ->. split; [done|]. by apply truthy_Some.
    + by intros [-> _].
  - split; [done|]. intros [-> Hs%truthy_Some]. congruence.
Qed.

Lemma asTruthy_None (x : option string) :
  asTruthy x = None ↔ truthy x = false.
Proof.
  unfold asTruthy. destruct (truthy x) eqn:E; [|done].
  split; [|done]. intros ->. done.
Qed.

(** ** The key validator *)

Section KeyValidator.
Import Auth.

Lemma N_of_ascii_inj (x y : ascii) : N_of_ascii x = N_of_ascii y → x = y.
Proof.
  intros H. rewrite <- (ascii_N_embedding x), <- (ascii_N_embedding y).
  by rewrite H.
Qed.

Lemma xorAccumulate_zero (a b : list ascii) (acc : N) :
  length a = length b →
  xorAccumulate acc a b = 0%N ↔ acc = 0%N ∧ a = b.
Proof.
  revert b acc. induction a as [|x a IH]; intros [|y b] acc Hlen;
    simpl in *; try discriminate.
  - split; [done | by intros [-> _]].
  - injection Hlen as Hlen. rewrite (IH b _ Hlen), N.lor_eq_0_iff.
    split.
    + intros [[-> Hxy] ->]. apply N.lxor_eq, N_of_ascii_inj in Hxy.
      by subst.
    + intros [-> [= -> ->]]. by rewrite N.lxor_nilpotent.
Qed.

Lemma timingSafeEqual_spec (a b : list ascii) :
  timingSafeEqual a b = Some true ↔ a = b.
Proof.
  unfold timingSafeEqual. destruct (Nat.eqb_spec (length a) (length b)) as [Hl|Hl].
  - split.
    + intros [= H%N.eqb_eq]. by apply xorAccumulate_zero in H as [_ ?].
    + intros ->. f_equal. apply N.eqb_eq. by apply xorAccumulate_zero.
  - split; [done | intros ->; done].
Qed.

Lemma list_ascii_of_string_inj (s t : string) :
  list_ascii_of_string s = list_ascii_of_string t → s = t.
Proof.
  intros H. rewrite <- (string_of_list_ascii_of_string s),
    <- (string_of_list_ascii_of_string t). by rewrite H.
Qed.

Lemma validateApiKey_Some (k s : string) :
  validateApiKey (Some k) s = true ↔ s = k.
Proof.
  unfold validateApiKey.
  destruct (Nat.eqb_spec (length (list_ascii_of_string s))
              (length (list_ascii_of_string k))) as [Hl|Hl].
  - destruct (timingSafeEqual _ _) as [[]|] eqn:E; simpl.
    + apply timingSafeEqual_spec, list_ascii_of_string_inj in E. done.
    + split; [done|]. intros ->.
      assert (timingSafeEqual (list_ascii_of_string k) (list_ascii_of_string k)
              = Some true) by by apply timingSafeEqual_spec.
      congruence.
    + unfold timingSafeEqual in E. apply Nat.eqb_eq in Hl.
      rewrite Hl in E. done.
  - split; [done | intros ->; done].
Qed.

(** Claim C1.  For every presented key [s], [validateApiKey] returns
    [true] if and only if a secret is configured and [s] equals it.  In
    particular, with no secret configured every key is rejected (fail
    closed); with a secret configured the secret itself is accepted and
    every other string is rejected. *)
Theorem validateApiKey_iff_configured_secret :
  (∀ (secret : option string) (s : string),
      validateApiKey secret s = true ↔ secret = Some s)
  ∧ (∀ s : string, validateApiKey None s = false)
  ∧ (∀ k : string, validateApiKey (Some k) k = true)
  ∧ (∀ k s : string, s ≠ k → validateApiKey (Some k) s = false).
Proof.
  split_and!.
  - intros [k|] s.
    + rewrite validateApiKey_Some. split; [by intros -> | by intros [= ->]].
    + done.
  - done.
  - intros k. by apply validateApiKey_Some.
  - intros k s Hne. apply not_true_is_false.
    by rewrite validateApiKey_Some.
Qed.

Lemma validateApiKey_wrong_key_witness :
  validateApiKey (Some "test-secret-key") "wrong-key" = false.
Proof.
  apply (proj2 (proj2 (proj2 validateApiKey_iff_configured_secret))).
  vm_compute. discriminate.
Defined.

End KeyValidator.

(** ** The auth routes, against any implementation of the library *)

Section RouteRuns.
Import Express AuthRoutes.
Context {W : Type} {L : AuthLib W}.

Ltac run_handler :=
  unfold handle, mbind, M_bind, mret, M_ret, status, sendJson, cookie,
    clearCookie, cookieOp, withRes, calling, emit, onLib, next; simpl.

Lemma getStatus_run (req : Request) (w : W) :
  handle (getStatus req) w =
    {| lib := (isRequestAuthenticated req w).2;
       res := replied 200 []
                (JObj [("success", JBool true);
                       ("authenticated", JBool (isRequestAuthenticated req w).1);
                       ("required", JBool true)]) [];
       trace := [EvIsRequestAuthenticated] |}.
Proof.
  unfold getStatus. run_handler.
  by destruct (isRequestAuthenticated req w).
Qed.

Lemma postLogin_run_missing (req : Request) (w : W) :
  asTruthy (body_apiKey req) = None →
  handle (postLogin req) w =
    {| lib := w;
       res := replied 400 [400] (failure "API key is required.") [];
       trace := [] |}.
Proof. intros E. unfold postLogin. rewrite E. by run_handler. Qed.

Lemma postLogin_run_invalid (req : Request) (w : W) (apiKey : string) :
  asTruthy (body_apiKey req) = Some apiKey →
  (validateApiKey apiKey w).1 = false →
  handle (postLogin req) w =
    {| lib := (validateApiKey apiKey w).2;
       res := replied 401 [401] (failure "Invalid API key.") [];
       trace := [EvValidateApiKey apiKey] |}.
Proof.
  intros E Hv. unfold postLogin. rewrite E. run_handler.
  destruct (validateApiKey apiKey w) as [valid w1]. simpl in Hv. by subst.
Qed.

Lemma postLogin_run_valid (req : Request) (w : W) (apiKey : string) :
  asTruthy (body_apiKey req) = Some apiKey →
  (validateApiKey apiKey w).1 = true →
  let created := createSession (validateApiKey apiKey w).2 in
  handle (postLogin req) w =
    {| lib := created.2;
       res := replied 200 []
                (JObj [("success", JBool true);
                       ("message", JStr "Logged in successfully.");
                       ("token", JStr created.1)])
                [SetCookie getSessionCookieName created.1 getSessionCookieOptions];
       trace := [EvValidateApiKey apiKey; EvCreateSession] |}.
Proof.
  intros E Hv. unfold postLogin. rewrite E. run_handler.
  destruct (validateApiKey apiKey w) as [valid w1]. simpl in Hv. subst. simpl.
  by destruct (createSession w1).
Qed.

Lemma getToken_run_unauthenticated (req : Request) (w : W) :
  (isRequestAuthenticated req w).1 = false →
  handle (getToken req) w =
    {| lib := (isRequestAuthenticated req w).2;
       res := replied 401 [401] (failure "Authentication required.") [];
       trace := [EvIsRequestAuthenticated] |}.
Proof.
  intros Ha. unfold getToken. run_handler.
  destruct (isRequestAuthenticated req w) as [b w1]. simpl in Ha. by subst.
Qed.

Lemma getToken_run_authenticated (req : Request) (w : W) :
  (isRequestAuthenticated req w).1 = true →
  let issued := createWsConnectionToken (isRequestAuthenticated req w).2 in
  handle (getToken req) w =
    {| lib := issued.2;
       res := replied 200 []
                (JObj [("success", JBool true);
                       ("token", JStr issued.1);
                       ("expiresIn", JNum 300)]) [];
       trace := [EvIsRequestAuthenticated; EvCreateWsConnectionToken] |}.
Proof.
  intros Ha. unfold getToken. run_handler.
  destruct (isRequestAuthenticated req w) as [b w1]. simpl in Ha. subst. simpl.
  by destruct (createWsConnectionToken w1).
Qed.

Lemma postLogout_run_cookie (production : bool) (req : Request) (w : W)
  (sessionToken : string) :
  asTruthy (cookies req ≫= λ c, c !! getSessionCookieName) = Some sessionToken →
  handle (postLogout production req) w =
    {| lib := invalidateSession sessionToken w;
       res := loggedOut production;
       trace := [EvInvalidateSession sessionToken] |}.
Proof. intros E. unfold postLogout. rewrite E. by run_handler. Qed.

Lemma postLogout_run_no_cookie (production : bool) (req : Request) (w : W) :
  asTruthy (cookies req ≫= λ c, c !! getSessionCookieName) = None →
  handle (postLogout production req) w =
    {| lib := w; res := loggedOut production; trace := [] |}.
Proof. intros E. unfold postLogout. rewrite E. by run_handler. Qed.

(** Claim C7.  For every request, [GET /api/auth/status] replies 200 with
    body [{ success: true, authenticated: b, required: true }], where [b]
    is exactly what [isRequestAuthenticated] reports for that request; it
    never sets another status, whatever credentials are presented. *)
Theorem getStatus_reports_authentication (req : Request) (w : W) :
  let h := handle (getStatus req) w in
  statusCode (res h) = 200
  ∧ statusCalls (res h) = []
  ∧ sent (res h) =
      [JObj [("success", JBool true);
             ("authenticated", JBool (isRequestAuthenticated req w).1);
             ("required", JBool true)]]
  ∧ trace h = [EvIsRequestAuthenticated].
Proof. simpl. by rewrite getStatus_run. Qed.

(** Claim C9.  A login request whose body has no [apiKey], or the empty
    string as [apiKey], is answered 400 with body
    [{ success: false, error: "API key is required." }]; the handler
    returns before any call into the library, so [validateApiKey] is never
    called and the library state is untouched. *)
Theorem postLogin_missing_key (req : Request) (w : W) :
  body_apiKey req = None ∨ body_apiKey req = Some "" →
  let h := handle (postLogin req) w in
  res h = replied 400 [400] (failure "API key is required.") []
  ∧ (∀ key, EvValidateApiKey key ∉ trace h)
  ∧ trace h = []
  ∧ lib h = w.
Proof.
  intros Hkey%truthy_false%asTruthy_None. simpl.
  rewrite (postLogin_run_missing _ _ Hkey). simpl.
  split_and!; try done. intros key Hin. by apply elem_of_nil in Hin.
Qed.

(** Claim C3.  A login request with a (non-empty) [apiKey] in its body:
    when [validateApiKey] rejects the key the reply is 401 with body
    [{ success: false, error: "Invalid API key." }], [createSession] is
    not called and no cookie is set; when it accepts the key,
    [createSession] is called once, the session cookie is set to the
    token it returned, and the reply is 200 with body
    [{ success: true, message: "Logged in successfully.", token }] for
    that same token. *)
Theorem postLogin_with_key (req : Request) (w : W) (apiKey : string) :
  body_apiKey req = Some apiKey → apiKey ≠ "" →
  let h := handle (postLogin req) w in
  let validated := validateApiKey apiKey w in
  let created := createSession validated.2 in
  (validated.1 = false →
     res h = replied 401 [401] (failure "Invalid API key.") []
     ∧ cookieOps (res h) = []
     ∧ trace h = [EvValidateApiKey apiKey]
     ∧ lib h = validated.2)
  ∧ (validated.1 = true →
     res h = replied 200 []
               (JObj [("success", JBool true);
                      ("message", JStr "Logged in successfully.");
                      ("token", JStr created.1)])
               [SetCookie getSessionCookieName created.1 getSessionCookieOptions]
     ∧ trace h = [EvValidateApiKey apiKey; EvCreateSession]
     ∧ lib h = created.2).
Proof.
  intros Hbody Hne.
  assert (asTruthy (body_apiKey req) = Some apiKey) as E
    by by apply asTruthy_Some.
  simpl. split; intros Hv.
  - by rewrite (postLogin_run_invalid _ _ _ E Hv).
  - by rewrite (postLogin_run_valid _ _ _ E Hv).
Qed.

(** Claim C6.  [GET /api/auth/token]: an unauthenticated request is
    answered 401 with body
    [{ success: false, error: "Authentication required." }]; an
    authenticated one 200 with body
    [{ success: true, token, expiresIn: 300 }], the token being the one
    [createWsConnectionToken] returned and 300 the connection-token
    lifetime of five minutes, in seconds. *)
Theorem getToken_replies (req : Request) (w : W) :
  let h := handle (getToken req) w in
  let checked := isRequestAuthenticated req w in
  ((checked.1 = false →
      res h = replied 401 [401] (failure "Authentication required.") [])
   ∧ (checked.1 = true →
      res h = replied 200 []
                (JObj [("success", JBool true);
                       ("token", JStr (createWsConnectionToken checked.2).1);
                       ("expiresIn", JNum 300)]) []))
  ∧ 300 = Auth.WS_TOKEN_MAX_AGE.
Proof.
  simpl. split; [split; intros Ha|done].
  - by rewrite (getToken_run_unauthenticated _ _ Ha).
  - by rewrite (getToken_run_authenticated _ _ Ha).
Qed.

End RouteRuns.

(** The two replies of [/token], with the library of module [Auth]: no
    credentials, and the API key of the unit tests. *)
Lemma getToken_replies_witness :
  let token req :=
    Express.handle
      (AuthRoutes.getToken (L := AuthRoutes.authLib Fixtures.testConfig 0) req)
      Auth.emptyStore in
  Express.res (token Fixtures.mockRequest)
  = Express.replied 401 [401] (Express.failure "Authentication required.") []
  ∧ Express.res (token (Fixtures.withApiKeyHeader "test-secret-key"))
    = Express.replied 200 []
        (JObj [("success", JBool true);
               ("token", JStr "tok-0");
               ("expiresIn", JNum 300)]) [].
Proof.
  intros token. unfold token.
  pose proof (getToken_replies (L := AuthRoutes.authLib Fixtures.testConfig 0)
                Fixtures.mockRequest Auth.emptyStore) as [[Hrefused _] _].
  pose proof (getToken_replies (L := AuthRoutes.authLib Fixtures.testConfig 0)
                (Fixtures.withApiKeyHeader "test-secret-key") Auth.emptyStore)
    as [[_ Hissued] _].
  split.
  - apply Hrefused. vm_compute. reflexivity.
  - apply Hissued. vm_compute. reflexivity.
Defined.

(** ** The session store and the gate of [lib/auth.ts] *)

Section AuthGate.
Import Express Auth.
Variable cfg : Config.

Lemma getSession_live (now : Z) (token : string) (st : Store) :
  is_Some (getSession now token st).1 ↔ sessionLive now token st = true.
Proof.
  unfold getSession, sessionLive.
  destruct (validSessions st !! token) as [s|]; simpl.
  - destruct (now <? expiresAt s); simpl; split;
      first [done | by intros [? ?]].
  - split; first [done | by intros [? ?]].
Qed.

Lemma getSession_absent (now : Z) (token : string) (st : Store) :
  validSessions st !! token = None → getSession now token st = (None, st).
Proof. intros E. unfold getSession. by rewrite E. Qed.

Lemma invalidateSession_gone (now : Z) (token : string) (st : Store) :
  (getSession now token (invalidateSession token st)).1 = None.
Proof.
  rewrite getSession_absent; [done|]. simpl. apply lookup_delete_eq.
Qed.

Lemma invalidateSession_absent (token : string) (st : Store) :
  validSessions st !! token = None → invalidateSession token st = st.
Proof.
  intros E. destruct st as [ss ws n]. unfold invalidateSession. simpl in *.
  f_equal. by apply delete_id.
Qed.

Lemma invalidateSession_idempotent (token : string) (st : Store) :
  invalidateSession token (invalidateSession token st) = invalidateSession token st.
Proof. apply invalidateSession_absent. simpl. apply lookup_delete_eq. Qed.

Lemma createSession_get (now : Z) (st : Store) :
  let created := createSession cfg now st in
  0 < SESSION_MAX_AGE cfg →
  (getSession now created.1 created.2).1
  = Some {| createdAt := now; expiresAt := now + SESSION_MAX_AGE cfg |}.
Proof.
  simpl. intros Hage. unfold getSession. simpl. rewrite lookup_insert_eq. simpl.
  destruct (Z.ltb_spec now (now + SESSION_MAX_AGE cfg)); [done | lia].
Qed.

Lemma authenticate_result (now : Z) (req : Request) (st : Store) :
  (authenticate cfg now req st).1 =
    match firstPresent (extractors cfg) req with
    | None => Unauthenticated MissingCredentials
    | Some c =>
        if credentialValid cfg now st c then Authenticated
        else Unauthenticated
               match c with
               | ApiKeyCredential _ => InvalidApiKey
               | SessionCredential _ => InvalidOrExpiredSession
               end
    end.
Proof.
  unfold authenticate.
  destruct (firstPresent (extractors cfg) req) as [[key|token]|]; simpl; [| |done].
  - by destruct (validateApiKey (API_KEY cfg) key).
  - unfold getSession, sessionLive.
    destruct (validSessions st !! token) as [s|]; [|done].
    by destruct (now <? expiresAt s).
Qed.

Lemma isRequestAuthenticated_true (now : Z) (req : Request) (st : Store) :
  (isRequestAuthenticated cfg now req st).1 = true
  ↔ (authenticate cfg now req st).1 = Authenticated.
Proof.
  unfold isRequestAuthenticated.
  by destruct (authenticate cfg now req st) as [[|reason] st'].
Qed.

Lemma isRequestAuthenticated_false (now : Z) (req : Request) (st : Store) :
  (isRequestAuthenticated cfg now req st).1 = false
  ↔ (authenticate cfg now req st).1 ≠ Authenticated.
Proof.
  rewrite <- isRequestAuthenticated_true.
  by destruct (isRequestAuthenticated cfg now req st).1.
Qed.

Lemma isRequestAuthenticated_store (now : Z) (req : Request) (st : Store) :
  (isRequestAuthenticated cfg now req st).2 = (authenticate cfg now req st).2.
Proof.
  unfold isRequestAuthenticated.
  by destruct (authenticate cfg now req st) as [[|reason] st'].
Qed.

(** The first credential present, read off the three channels. *)
Lemma firstPresent_channels (req : Request) :
  firstPresent (extractors cfg) req =
    match asTruthy (headers req !! "x-api-key") with
    | Some key => Some (ApiKeyCredential key)
    | None =>
        match asTruthy (cookies req ≫= λ c, c !! SESSION_COOKIE_NAME cfg) with
        | Some token => Some (SessionCredential token)
        | None =>
            SessionCredential <$> asTruthy (headers req !! SESSION_TOKEN_HEADER cfg)
        end
    end.
Proof.
  unfold extractors, firstPresent, apiKeyHeader, sessionCookie, sessionTokenHeader.
  destruct (asTruthy (headers req !! "x-api-key")); simpl; [done|].
  destruct (asTruthy (cookies req ≫= _)); simpl; [done|].
  by destruct (asTruthy (headers req !! SESSION_TOKEN_HEADER cfg)).
Qed.

Lemma decidedByCookie_channels (req : Request) :
  decidedByCookie cfg req =
    match asTruthy (headers req !! "x-api-key") with
    | Some _ => false
    | None =>
        match asTruthy (cookies req ≫= λ c, c !! SESSION_COOKIE_NAME cfg) with
        | Some _ => true
        | None => false
        end
    end.
Proof.
  unfold decidedByCookie, apiKeyHeader, sessionCookie.
  destruct (asTruthy (headers req !! "x-api-key")); simpl; [done|].
  by destruct (asTruthy (cookies req ≫= _)).
Qed.

(** The comparison accepts the configured secret and nothing else. *)
Lemma validateApiKey_configured (key : string) :
  validateApiKey (API_KEY cfg) key = bool_decide (API_KEY cfg = Some key).
Proof.
  destruct (API_KEY cfg) as [k|]; [|done].
  destruct (validateApiKey (Some k) key) eqn:E.
  - apply validateApiKey_Some in E as ->. by rewrite bool_decide_eq_true_2.
  - rewrite bool_decide_eq_false_2; [done|]. intros [= ->].
    assert (validateApiKey (Some key) key = true) by by apply validateApiKey_Some.
    congruence.
Qed.

(** The verdict of the gate, from the request and the store. *)
Lemma authenticate_authentic (now : Z) (req : Request) (st : Store) :
  (authenticate cfg now req st).1 = Authenticated
  ↔ requestAuthentic cfg now req st = true.
Proof.
  rewrite authenticate_result, firstPresent_channels.
  unfold requestAuthentic, presentedSessionToken.
  destruct (asTruthy (headers req !! "x-api-key")) as [key|]; simpl.
  { rewrite validateApiKey_configured.
    by destruct (bool_decide (API_KEY cfg = Some key)). }
  destruct (asTruthy (cookies req ≫= _)) as [token|]; simpl.
  { by destruct (sessionLive now token st). }
  destruct (asTruthy (headers req !! SESSION_TOKEN_HEADER cfg)) as [token|]; simpl.
  { by destruct (sessionLive now token st). }
  done.
Qed.

(** A request that is let through leaves the store as it was. *)
Lemma authenticate_authenticated_store (now : Z) (req : Request) (st : Store) :
  (authenticate cfg now req st).1 = Authenticated →
  (authenticate cfg now req st).2 = st.
Proof.
  unfold authenticate.
  destruct (firstPresent (extractors cfg) req) as [[key|token]|]; simpl; [| |done].
  - by destruct (validateApiKey (API_KEY cfg) key).
  - unfold getSession. destruct (validSessions st !! token) as [s|]; [|done].
    by destruct (now <? expiresAt s).
Qed.

Lemma authMiddleware_run (now : Z) (req : Request) (st : Store) :
  let unauthenticated := replied 401 [401] (failure "Authentication required.") [] in
  let invalid := replied 403 [403] (failure "Invalid API key.") [] in
  handle (authMiddleware cfg now req) st =
    {| lib := (authenticate cfg now req st).2;
       res := match (authenticate cfg now req st).1 with
              | Authenticated => freshResponse
              | Unauthenticated MissingCredentials => unauthenticated
              | Unauthenticated InvalidApiKey => invalid
              | Unauthenticated InvalidOrExpiredSession =>
                  if decidedByCookie cfg req then unauthenticated else invalid
              end;
       trace := match (authenticate cfg now req st).1 with
                | Authenticated => [EvNext]
                | Unauthenticated _ => []
                end |}.
Proof.
  unfold authMiddleware, rejectUnauthenticated, rejectInvalid, handle, mbind,
    M_bind, onLib. simpl.
  destruct (authenticate cfg now req st) as [[|[]] st']; try done.
  by destruct (decidedByCookie cfg req).
Qed.


End AuthGate.



(** ** Invariants of the store *)

Section StoreInvariants.
Import Express Auth.
Variable cfg : Config.

Lemma getSession_keeps (now : Z) (token : string) (st : Store) :
  wsConnectionTokens (getSession now token st).2 = wsConnectionTokens st
  ∧ drawn (getSession now token st).2 = drawn st.
Proof.
  unfold getSession. destruct (validSessions st !! token) as [x|]; simpl; [|done].
  by destruct (now <? expiresAt x).
Qed.

Lemma authenticate_keeps (now : Z) (req : Request) (st : Store) :
  wsConnectionTokens (authenticate cfg now req st).2 = wsConnectionTokens st.
Proof.
  unfold authenticate.
  destruct (firstPresent (extractors cfg) req) as [[key|token]|]; simpl; [| |done].
  - by destruct (validateApiKey (API_KEY cfg) key).
  - pose proof (getSession_keeps now token st) as [Hws _].
    by destruct (getSession now token st) as [[s|] st'].
Qed.

(** The token the search ends with is none of the tokens to avoid. *)
Lemma drawFresh_fresh (rand : nat → string) (taken : gset string) (fuel i : nat) :
  (drawFresh rand taken fuel i).1 ∉ taken.
Proof.
  revert i. induction fuel as [|fuel IH]; intros i; simpl; [apply is_fresh|].
  destruct (decide (rand i ∈ taken)); [apply IH | done].
Qed.

(** A connection token just issued was no token of the store. *)
Lemma createWsConnectionToken_fresh (now : Z) (st : Store) :
  validSessions st !! (createWsConnectionToken cfg now st).1 = None
  ∧ wsConnectionTokens st !! (createWsConnectionToken cfg now st).1 = None.
Proof.
  pose proof (drawFresh_fresh (randomToken cfg) (tokensInUse st)
                (S (size (tokensInUse st))) (drawn st)) as Hfresh.
  unfold tokensInUse in Hfresh at 1.
  apply not_elem_of_union in Hfresh as [Hs Hws].
  by apply not_elem_of_dom in Hs, Hws.
Qed.

(** No operation of the store takes a connection token out of it. *)
Lemma wsConnectionTokens_step (t : string) (st st' : Store) :
  step cfg st st' →
  is_Some (wsConnectionTokens st !! t) → is_Some (wsConnectionTokens st' !! t).
Proof.
  intros [now s|now token s|token s|now s]; simpl; [done| |done|].
  - by destruct (getSession_keeps now token s) as [-> _].
  - intros Ht. rewrite lookup_insert_is_Some. destruct (decide
      ((drawFresh (randomToken cfg) (tokensInUse s) (S (size (tokensInUse s)))
          (drawn s)).1 = t)); auto.
Qed.

Lemma wsConnectionTokens_steps (t : string) (st st' : Store) :
  rtc (step cfg) st st' →
  is_Some (wsConnectionTokens st !! t) → is_Some (wsConnectionTokens st' !! t).
Proof. induction 1; eauto using wsConnectionTokens_step. Qed.

End StoreInvariants.

(** ** Issuing connection tokens *)

Section Issuance.
Import Express Auth AuthRoutes.
Variable cfg : Config.

Lemma tokenReply_inj (t t' : string) : tokenReply t = tokenReply t' → t = t'.
Proof. unfold tokenReply, replied. by intros [= ->]. Qed.


End Issuance.



(** ** Logging out *)

Section Logout.
Import Express Auth AuthRoutes.
Variable cfg : Config.

(** Claim C5.  [POST /api/auth/logout] replies 200 with body
    [{ success: true, message: "Logged out successfully." }] to every
    request and clears the session cookie in every case.  When the request
    has a (non-empty) session cookie the session it names is invalidated:
    no later lookup finds it.  Without one the store is left as it is.
    Invalidating a token the store does not have changes nothing.  A
    second logout with the same request gets the same reply and leaves the
    store as the first one left it. *)
Theorem postLogout_always_succeeds (now : Z) (req : Request) (st : Store) :
  let logout (now : Z) (st : Store) : HState Store :=
    handle (postLogout (L := authLib cfg now) (production cfg) req) st in
  let sessionCookie := cookies req ≫= λ c, c !! SESSION_COOKIE_NAME cfg in
  let h := logout now st in
  res h = replied 200 []
            (JObj [("success", JBool true);
                   ("message", JStr "Logged out successfully.")])
            [ClearCookie (SESSION_COOKIE_NAME cfg)
               {| httpOnly := true; secure := production cfg;
                  sameSite := "strict"; path := "/" |}]
  ∧ (∀ token : string, sessionCookie = Some token → token ≠ "" →
       trace h = [EvInvalidateSession token]
       ∧ lib h = Auth.invalidateSession token st
       ∧ ∀ later : Z, (getSession later token (lib h)).1 = None)
  ∧ (sessionCookie = None ∨ sessionCookie = Some "" →
       trace h = [] ∧ lib h = st)
  ∧ (∀ token : string,
       validSessions st !! token = None → Auth.invalidateSession token st = st)
  ∧ (∀ later : Z, res (logout later (lib h)) = res h
              ∧ lib (logout later (lib h)) = lib h).
Proof.
  cbv zeta.
  set (sessionCookie := cookies req ≫= λ c, c !! SESSION_COOKIE_NAME cfg).
  destruct (asTruthy sessionCookie) as [token|] eqn:E.
  - rewrite (postLogout_run_cookie (L := authLib cfg now) _ req st token E).
    apply asTruthy_Some in E as [Hc Hne]. split_and!.
    + done.
    + intros t. rewrite Hc. intros [= <-] _. simpl. split_and!; [done | done |].
      intros later. apply invalidateSession_gone.
    + rewrite Hc. intros [|[= ->]]; done.
    + intros t. apply invalidateSession_absent.
    + intros later.
      rewrite (postLogout_run_cookie (L := authLib cfg later) _ req _ token);
        [|by apply asTruthy_Some].
      simpl. split; [done|]. apply invalidateSession_idempotent.
  - rewrite (postLogout_run_no_cookie (L := authLib cfg now) _ req st E).
    apply asTruthy_None, truthy_false in E. split_and!.
    + done.
    + intros t Hc Hne. destruct E as [E|E]; rewrite E in Hc; congruence.
    + done.
    + intros t. apply invalidateSession_absent.
    + intros later.
      by rewrite (postLogout_run_no_cookie (L := authLib cfg later) _ req);
        [|apply asTruthy_None, truthy_false].
Qed.

End Logout.

(** Logging out, with its cookie, of the session a login at time 0 made;
    and logging out without a cookie. *)
Lemma postLogout_always_succeeds_witness :
  let st := (Auth.createSession Fixtures.testConfig 0 Auth.emptyStore).2 in
  let logout req :=
    Express.handle
      (AuthRoutes.postLogout (L := AuthRoutes.authLib Fixtures.testConfig 1)
         false req) st in
  Auth.validSessions st !! "tok-0"
  = Some {| Auth.createdAt := 0; Auth.expiresAt := 2592000 |}
  ∧ Express.trace (logout (Fixtures.withCookie "tok-0"))
    = [Express.EvInvalidateSession "tok-0"]
  ∧ (Auth.getSession 1 "tok-0" (Express.lib (logout (Fixtures.withCookie "tok-0")))).1
    = None
  ∧ Auth.invalidateSession "tok-1" st = st
  ∧ Express.lib (logout Fixtures.mockRequest) = st.
Proof.
  intros st logout. unfold logout, st.
  pose proof (postLogout_always_succeeds Fixtures.testConfig 1
                (Fixtures.withCookie "tok-0")
                (Auth.createSession Fixtures.testConfig 0 Auth.emptyStore).2)
    as (_ & Hcookie & _ & Habsent & _).
  pose proof (postLogout_always_succeeds Fixtures.testConfig 1
                Fixtures.mockRequest
                (Auth.createSession Fixtures.testConfig 0 Auth.emptyStore).2)
    as (_ & _ & Hnone & _).
  destruct (Hcookie "tok-0") as (Htrace & _ & Hgone).
  { vm_compute. reflexivity. }
  { vm_compute. discriminate. }
  destruct Hnone as [_ Hsame].
  { left. vm_compute. reflexivity. }
  split_and!.
  - vm_compute. reflexivity.
  - exact Htrace.
  - apply Hgone.
  - apply Habsent. vm_compute. reflexivity.
  - exact Hsame.
Defined.

(** ** Logging in, with the library of module [Auth] *)

Section Login.
Import Express Auth AuthRoutes.
Variable cfg : Config.

(** Login in terms of the store: a rejected key leaves the store alone, an
    accepted key puts a session under the token that goes into the cookie. *)
Lemma postLogin_session_store (now : Z) (req : Request) (st : Store)
  (apiKey : string) :
  body_apiKey req = Some apiKey → apiKey ≠ "" →
  let h := handle (postLogin (L := authLib cfg now) req) st in
  let token := randomToken cfg (drawn st) in
  (Auth.validateApiKey (API_KEY cfg) apiKey = false → lib h = st)
  ∧ (Auth.validateApiKey (API_KEY cfg) apiKey = true →
     validSessions (lib h) !! token
     = Some {| createdAt := now; expiresAt := now + SESSION_MAX_AGE cfg |}
     ∧ cookieOps (res h)
       = [SetCookie (SESSION_COOKIE_NAME cfg) token (Auth.getSessionCookieOptions cfg)]).
Proof.
  intros Hbody Hne. cbv zeta.
  assert (asTruthy (body_apiKey req) = Some apiKey) as E by by apply asTruthy_Some.
  split; intros Hv.
  - by rewrite (postLogin_run_invalid (L := authLib cfg now) req st apiKey E Hv).
  - rewrite (postLogin_run_valid (L := authLib cfg now) req st apiKey E Hv).
    simpl. by rewrite lookup_insert_eq.
Qed.

End Login.

Lemma postLogin_missing_key_witness :
  Express.res
    (Express.handle
       (AuthRoutes.postLogin (L := AuthRoutes.authLib Fixtures.testConfig 0)
          (Fixtures.withBodyKey "")) Auth.emptyStore)
  = Express.replied 400 [400] (Express.failure "API key is required.") [].
Proof.
  apply (postLogin_missing_key (L := AuthRoutes.authLib Fixtures.testConfig 0)
           (Fixtures.withBodyKey "") Auth.emptyStore).
  right. reflexivity.
Defined.

Lemma postLogin_with_key_witness :
  let login key :=
    Express.handle
      (AuthRoutes.postLogin (L := AuthRoutes.authLib Fixtures.testConfig 0)
         (Fixtures.withBodyKey key)) Auth.emptyStore in
  Express.res (login "wrong-key")
  = Express.replied 401 [401] (Express.failure "Invalid API key.") []
  ∧ Express.res (login "test-secret-key")
    = Express.replied 200 []
        (JObj [("success", JBool true);
               ("message", JStr "Logged in successfully.");
               ("token", JStr "tok-0")])
        [Express.SetCookie "automaker_session" "tok-0"
           (Auth.getSessionCookieOptions Fixtures.testConfig)].
Proof.
  intros login. unfold login. split.
  - apply (postLogin_with_key (L := AuthRoutes.authLib Fixtures.testConfig 0)
             (Fixtures.withBodyKey "wrong-key") Auth.emptyStore "wrong-key").
    + reflexivity.
    + vm_compute. discriminate.
    + vm_compute. reflexivity.
  - apply (postLogin_with_key (L := AuthRoutes.authLib Fixtures.testConfig 0)
             (Fixtures.withBodyKey "test-secret-key") Auth.emptyStore
             "test-secret-key").
    + reflexivity.
    + vm_compute. discriminate.
    + vm_compute. reflexivity.
Defined.

(** ** The matcher against what a pattern matches *)

Section Matcher.
Import RegExp.
Local Open Scope list_scope.

Lemma take_consumed (u rest : jsstring) :
  take (length (u ++ rest) - length rest) (u ++ rest) = u.
Proof.
  rewrite length_app, Nat.add_sub. by rewrite take_app_length.
Qed.

Lemma starLoop_sound {R : Type}
  (body : jsstring → option jsstring → Cont R → option R)
  (r : regex) (greedy : bool) :
  (∀ s c (k : Cont R) x, body s c k = Some x →
     ∃ u s' c', s = u ++ s' ∧ matches r u s' c c' ∧ k s' c' = Some x) →
  ∀ fuel s c (k : Cont R) x,
    starLoop body greedy k fuel s c = Some x →
    ∃ u s' c', s = u ++ s' ∧ matches (Star greedy r) u s' c c' ∧ k s' c' = Some x.
Proof.
  intros Hbody fuel. induction fuel as [|fuel IH]; intros s c k x Hrun.
  - assert (k s c = Some x) as Hk.
    { simpl in Hrun. destruct greedy; [done|]. by destruct (k s c). }
    exists [], s, c. split_and!; [done | constructor | done].
  - assert (k s c = Some x
            ∨ body s c (λ s' c', if decide (length s' < length s)%nat
                                 then starLoop body greedy k fuel s' c'
                                 else None) = Some x) as [Hk|Hmore].
    { simpl in Hrun. destruct greedy.
      - destruct (body s c _) as [y|] eqn:E; [right; congruence | by left].
      - destruct (k s c) as [y|] eqn:E; [left; congruence | by right]. }
    + exists [], s, c. split_and!; [done | constructor | done].
    + apply Hbody in Hmore as (u1 & s1 & c1 & -> & Hu1 & Hrest).
      destruct (decide (length s1 < length (u1 ++ s1))%nat) as [Hlt|]; [|done].
      apply IH in Hrest as (u2 & s2 & c2 & -> & Hu2 & Hk).
      exists (u1 ++ u2), s2, c2. split_and!.
      * by rewrite <- app_assoc.
      * apply matches_Star_more with c1; [|done|done].
        intros ->. simpl in Hlt. lia.
      * done.
Qed.

(** Soundness: whatever the matcher finds is a match. *)
Lemma m_sound (r : regex) :
  ∀ (R : Type) s c (k : Cont R) x,
    m r s c k = Some x →
    ∃ u s' c', s = u ++ s' ∧ matches r u s' c c' ∧ k s' c' = Some x.
Proof.
  induction r as [|p|r1 IH1 r2 IH2|r1 IH1 r2 IH2|greedy r IH|r IH|r IH|];
    intros R s c k x Hrun; simpl in Hrun.
  - exists [], s, c. split_and!; [done | constructor | done].
  - destruct s as [|y s]; [done|]. destruct (p y) eqn:Hp; [|done].
    exists [y], s, c. split_and!; [done | by constructor | done].
  - apply IH1 in Hrun as (u1 & s1 & c1 & -> & Hu1 & Hrun).
    apply IH2 in Hrun as (u2 & s2 & c2 & -> & Hu2 & Hk).
    exists (u1 ++ u2), s2, c2. split_and!.
    + by rewrite <- app_assoc.
    + by apply matches_Seq with c1.
    + done.
  - destruct (m r1 s c k) as [y|] eqn:E.
    + injection Hrun as ->.
      apply IH1 in E as (u & s' & c' & -> & Hu & Hk).
      exists u, s', c'. split_and!; [done | by apply matches_Alt_l | done].
    + apply IH2 in Hrun as (u & s' & c' & -> & Hu & Hk).
      exists u, s', c'. split_and!; [done | by apply matches_Alt_r | done].
  - eapply starLoop_sound; [|exact Hrun]. intros. by apply IH.
  - apply IH in Hrun as (u & s' & c' & -> & Hu & Hk).
    rewrite take_consumed in Hk.
    exists u, s', (Some u). split_and!; [done | by apply matches_Group with c' | done].
  - destruct (m r s c (λ _ c', Some c')) as [c0|] eqn:E; [|done].
    apply IH in E as (u & s' & c' & -> & Hu & [= ->]).
    exists [], (u ++ s'), c0. split_and!; [done | by constructor | done].
  - destruct s; [|done].
    exists [], [], c. split_and!; [done | constructor | done].
Qed.

Lemma starLoop_done {R : Type}
  (body : jsstring → option jsstring → Cont R → option R)
  (greedy : bool) (k : Cont R) (fuel : nat) s c :
  is_Some (k s c) → is_Some (starLoop body greedy k fuel s c).
Proof.
  intros [x Hk]. destruct fuel; simpl; rewrite Hk.
  - by destruct greedy.
  - destruct greedy; [|done]. by destruct (body s c _).
Qed.

(** Completeness: where there is a match after which the continuation
    succeeds, the matcher succeeds (by that match or an earlier
    alternative).  For a star any fuel from the length of the input on is
    enough. *)
Lemma m_complete_fuel (r : regex) u rest c c' :
  matches r u rest c c' →
  noLookahead r = true →
  ∀ (R : Type) (k : Cont R),
    is_Some (k rest c') →
    is_Some (m r (u ++ rest) c k)
    ∧ match r with
      | Star greedy r' =>
          ∀ fuel, (length (u ++ rest) ≤ fuel)%nat →
                  is_Some (starLoop (m r') greedy k fuel (u ++ rest) c)
      | _ => True
      end.
Proof.
  induction 1 as [rest c|p x rest c Hp
                 |r1 r2 u1 u2 rest c c1 c2 _ IH1 _ IH2
                 |r1 r2 u rest c c' _ IH|r1 r2 u rest c c' _ IH
                 |greedy r rest c
                 |greedy r u1 u2 rest c c1 c2 Hne _ IHr _ IHstar
                 |r u rest c c' _ IH|r u rest c c' _ IH|c];
    intros Hplain R k Hk; simpl in Hplain.
  - done.
  - simpl. by rewrite Hp.
  - apply andb_prop in Hplain as [Hp1 Hp2]. split; [|done].
    rewrite <- app_assoc. simpl. apply (IH1 Hp1). by apply (IH2 Hp2).
  - apply andb_prop in Hplain as [Hp1 Hp2]. split; [|done].
    simpl. destruct (IH Hp1 R k Hk) as [[y ->] _]. done.
  - apply andb_prop in Hplain as [Hp1 Hp2]. split; [|done].
    simpl. destruct (m r1 (u ++ rest) c k); [done|]. by apply (IH Hp2).
  - split; [|intros fuel _]; by apply starLoop_done.
  - assert (∀ fuel, (length ((u1 ++ u2) ++ rest) ≤ fuel)%nat →
              is_Some (starLoop (m r) greedy k fuel ((u1 ++ u2) ++ rest) c))
      as Hloop.
    { intros fuel Hfuel.
      assert (0 < length u1)%nat as Hlen by (destruct u1; [done | simpl; lia]).
      destruct fuel as [|fuel]; [rewrite !length_app in Hfuel; lia|].
      assert (is_Some
                (m r ((u1 ++ u2) ++ rest) c
                   (λ s' c', if decide (length s' < length ((u1 ++ u2) ++ rest))%nat
                             then starLoop (m r) greedy k fuel s' c'
                             else None))) as [y Hy].
      { rewrite <- app_assoc. apply (IHr Hplain).
        rewrite decide_True by (rewrite !length_app; lia).
        apply (IHstar Hplain R k Hk). rewrite !length_app in *. lia. }
      simpl. rewrite Hy. destruct greedy; [done|]. by destruct (k _ c). }
    split; [|exact Hloop]. simpl. by apply Hloop.
  - split; [|done]. simpl. apply (IH Hplain). by rewrite take_consumed.
  - done.
  - done.
Qed.

Lemma m_complete (r : regex) u rest c c' (R : Type) (k : Cont R) :
  matches r u rest c c' → noLookahead r = true →
  is_Some (k rest c') → is_Some (m r (u ++ rest) c k).
Proof. intros Hm Hplain Hk. by apply (m_complete_fuel r u rest c c' Hm Hplain). Qed.

Lemma matchAt_sound (r : regex) s w g :
  matchAt r s = Some (w, g) → ∃ post, s = w ++ post ∧ matches r w post None g.
Proof.
  intros (u & s' & c' & -> & Hu & Hk)%m_sound.
  rewrite take_consumed in Hk. injection Hk as -> ->. eauto.
Qed.

Lemma exec_sound (r : regex) s w g :
  exec r s = Some (w, g) → occursIn r s w g.
Proof.
  induction s as [|x s IH]; simpl.
  - destruct (matchAt r []) as [a|] eqn:E; [|done]. intros [= ->].
    apply matchAt_sound in E as (post & -> & Hm). by exists [], post.
  - destruct (matchAt r (x :: s)) as [a|] eqn:E.
    + intros [= ->].
      apply matchAt_sound in E as (post & -> & Hm). by exists [], post.
    + intros (pre & post & -> & Hm)%IH. by exists (x :: pre), post.
Qed.

Lemma exec_complete (r : regex) s w g :
  noLookahead r = true → occursIn r s w g → is_Some (exec r s).
Proof.
  intros Hplain (pre & post & -> & Hm).
  assert (is_Some (matchAt r (w ++ post))) as Hhere.
  { unfold matchAt. by eapply m_complete. }
  induction pre as [|x pre IH]; simpl.
  - destruct Hhere as [a Ha]. destruct (w ++ post); simpl; by rewrite Ha.
  - by destruct (matchAt r (x :: pre ++ w ++ post)).
Qed.

End Matcher.

(** ** The ASSESSMENT pattern *)

Section AssessmentPattern.
Import RegExp ValidateFeature.
Local Open Scope list_scope.

Lemma matches_Lit_inv (l u rest : jsstring) c c' :
  matches (Lit l) u rest c c' → u = l ∧ c' = c.
Proof.
  revert u c c'. induction l as [|x l IH]; intros u c c' Hm; simpl in Hm.
  - by inversion Hm.
  - inversion Hm as [| |? ? u1 u2 ? ? c1 ? H1 H2| | | | | | |]; subst.
    inversion H1 as [|? y ? ? Hy| | | | | | | |]; subst.
    apply N.eqb_eq in Hy as <-.
    apply IH in H2 as [-> ->]. done.
Qed.

Lemma matches_Lit (l rest : jsstring) c : matches (Lit l) l rest c c.
Proof.
  induction l as [|x l IH]; simpl; [constructor|].
  apply (matches_Seq _ _ [x] l) with c; [|done].
  constructor. apply N.eqb_refl.
Qed.

Lemma matches_spaces_inv (greedy : bool) p (u rest : jsstring) c c' :
  matches (Star greedy (Class p)) u rest c c' →
  Forall (λ x, p x = true) u ∧ c' = c.
Proof.
  intros Hm. remember (Star greedy (Class p)) as r eqn:Hr.
  induction Hm as [| | | | | |g r0 u1 u2 rest c c1 c2 Hne H1 _ H2 IH| | |];
    try discriminate.
  - done.
  - injection Hr as -> ->.
    inversion H1 as [|? y ? ? Hy| | | | | | | |]; subst.
    destruct (IH eq_refl) as [Hall ->]. split; [|done].
    by constructor.
Qed.

Lemma matches_spaces (greedy : bool) p (u rest : jsstring) c :
  Forall (λ x, p x = true) u → matches (Star greedy (Class p)) u rest c c.
Proof.
  induction 1 as [|x u Hx _ IH]; [constructor|].
  apply (matches_Star_more _ _ [x] u) with c; [done | by constructor | done].
Qed.

Lemma matches_UpTo2_inv (a : N) (u rest : jsstring) c c' :
  matches (UpTo2 (Chr a)) u rest c c' → u ∈ [[]; [a]; [a; a]] ∧ c' = c.
Proof.
  intros Hm. unfold UpTo2, Opt, Chr in Hm.
  inversion Hm as [| | |? ? ? ? ? ? Hl|? ? ? ? ? ? Hr| | | | |]; subst.
  - inversion Hl as [| |? ? u1 u2 ? ? c1 ? H1 H2| | | | | | |]; subst.
    inversion H1 as [|? y ? ? Hy| | | | | | | |]; subst.
    apply N.eqb_eq in Hy as <-.
    inversion H2 as [| | |? ? ? ? ? ? Hl2|? ? ? ? ? ? Hr2| | | | |]; subst.
    + inversion Hl2 as [|? z ? ? Hz| | | | | | | |]; subst.
      apply N.eqb_eq in Hz as <-. split; [|done]. set_solver.
    + inversion Hr2; subst. split; [|done]. set_solver.
  - inversion Hr; subst. split; [|done]. set_solver.
Qed.

Lemma matches_UpTo2 (a : N) (u rest : jsstring) c :
  u ∈ [[]; [a]; [a; a]] → matches (UpTo2 (Chr a)) u rest c c.
Proof.
  assert (matches (Chr a) [a] rest c c) as Hone
    by (constructor; apply N.eqb_refl).
  assert (∀ rest, matches (Chr a) [a] rest c c) as Hany
    by (intros; constructor; apply N.eqb_refl).
  intros Hu. unfold UpTo2, Opt.
  apply list_elem_of_In in Hu. simpl in Hu.
  destruct Hu as [<-|[<-|[<-|[]]]].
  - apply matches_Alt_r. constructor.
  - apply matches_Alt_l.
    apply (matches_Seq _ _ [a] []) with c; [apply Hany|].
    apply matches_Alt_r. constructor.
  - apply matches_Alt_l.
    apply (matches_Seq _ _ [a] [a]) with c; [apply Hany|].
    apply matches_Alt_l. apply Hany.
Qed.

Lemma matches_Alt3_inv (l1 l2 l3 u rest : jsstring) c c' :
  matches (Alt (Lit l1) (Alt (Lit l2) (Lit l3))) u rest c c' →
  u ∈ [l1; l2; l3] ∧ c' = c.
Proof.
  intros Hm.
  inversion Hm as [| | |? ? ? ? ? ? Hl|? ? ? ? ? ? Hr| | | | |]; subst.
  - apply matches_Lit_inv in Hl as [-> ->]. split; [|done]. set_solver.
  - inversion Hr as [| | |? ? ? ? ? ? Hl2|? ? ? ? ? ? Hr2| | | | |]; subst.
    + apply matches_Lit_inv in Hl2 as [-> ->]. split; [|done]. set_solver.
    + apply matches_Lit_inv in Hr2 as [-> ->]. split; [|done]. set_solver.
Qed.

Lemma matches_Alt3 (l1 l2 l3 u rest : jsstring) c :
  u ∈ [l1; l2; l3] → matches (Alt (Lit l1) (Alt (Lit l2) (Lit l3))) u rest c c.
Proof.
  intros Hu. apply list_elem_of_In in Hu. simpl in Hu.
  destruct Hu as [<-|[<-|[<-|[]]]].
  - apply matches_Alt_l, matches_Lit.
  - apply matches_Alt_r, matches_Alt_l, matches_Lit.
  - apply matches_Alt_r, matches_Alt_r, matches_Lit.
Qed.

Lemma matches_keyed_inv (keyword : jsstring) (group : regex)
  (w post : jsstring) c g :
  matches (keyed keyword group) w post c g →
  ∃ ws stars text stars' c',
    w = keyword ++ ws ++ stars ++ text ++ stars'
    ∧ Forall (λ x, isSpace x = true) ws
    ∧ stars ∈ [[]; [asterisk]; [asterisk; asterisk]]
    ∧ matches group text (stars' ++ post) c c'
    ∧ g = Some text.
Proof.
  intros Hm. unfold keyed in Hm.
  inversion Hm as [| |? ? u1 v1 ? ? c1 ? H1 Hm1| | | | | | |]; subst.
  inversion Hm1 as [| |? ? u2 v2 ? ? c2 ? H2 Hm2| | | | | | |]; subst.
  inversion Hm2 as [| |? ? u3 v3 ? ? c3 ? H3 Hm3| | | | | | |]; subst.
  inversion Hm3 as [| |? ? u4 v4 ? ? c4 ? H4 H5| | | | | | |]; subst.
  apply matches_Lit_inv in H1 as [-> ->].
  apply matches_spaces_inv in H2 as [Hws ->].
  apply matches_UpTo2_inv in H3 as [Hstars ->].
  inversion H4 as [| | | | | | |? ? ? ? c5 Hgroup| |]; subst.
  apply matches_UpTo2_inv in H5 as [_ ->].
  by exists u2, u3, u4, v4, c5.
Qed.

Lemma matches_keyed (keyword : jsstring) (group : regex)
  (ws stars text post : jsstring) c c' :
  Forall (λ x, isSpace x = true) ws →
  stars ∈ [[]; [asterisk]; [asterisk; asterisk]] →
  matches group text post c c' →
  matches (keyed keyword group) (keyword ++ ws ++ stars ++ text ++ []) post
    c (Some text).
Proof.
  intros Hws Hstars Hgroup. unfold keyed.
  apply matches_Seq with c; [apply matches_Lit|].
  apply matches_Seq with c; [by apply matches_spaces|].
  apply matches_Seq with c; [by apply matches_UpTo2|].
  apply matches_Seq with (Some text).
  - by apply matches_Group with c'.
  - apply matches_UpTo2. constructor.
Qed.

Lemma assessmentRe_keyed :
  assessmentRe
  = keyed (js "ASSESSMENT:")
      (Alt (Lit FULLY_IMPLEMENTED)
         (Alt (Lit PARTIALLY_IMPLEMENTED) (Lit NOT_IMPLEMENTED))).
Proof. reflexivity. Qed.

(** What the ASSESSMENT pattern matches, and what it captures. *)
Lemma matches_assessmentRe_inv (w post : jsstring) g :
  matches assessmentRe w post None g →
  ∃ ws stars label stars',
    w = js "ASSESSMENT:" ++ ws ++ stars ++ label ++ stars'
    ∧ Forall (λ x, isSpace x = true) ws
    ∧ stars ∈ [[]; [asterisk]; [asterisk; asterisk]]
    ∧ label ∈ assessmentLabels
    ∧ g = Some label.
Proof.
  rewrite assessmentRe_keyed.
  intros (ws & stars & label & stars' & c' & -> & Hws & Hstars & Hlabel & ->)
           %matches_keyed_inv.
  apply matches_Alt3_inv in Hlabel as [Hlabel _].
  by exists ws, stars, label, stars'.
Qed.

Lemma matches_assessmentRe (ws stars label post : jsstring) :
  Forall (λ x, isSpace x = true) ws →
  stars ∈ [[]; [asterisk]; [asterisk; asterisk]] →
  label ∈ assessmentLabels →
  matches assessmentRe (js "ASSESSMENT:" ++ ws ++ stars ++ label ++ []) post
    None (Some label).
Proof.
  intros Hws Hstars Hlabel. rewrite assessmentRe_keyed.
  apply matches_keyed with None; [done | done |]. by apply matches_Alt3.
Qed.

Lemma noLookahead_assessmentRe : noLookahead assessmentRe = true.
Proof. reflexivity. Qed.

(** A match of the ASSESSMENT pattern is an ASSESSMENT line, whose label
    is what the group holds. *)
Lemma exec_assessmentRe_Some (response w : jsstring) g :
  exec assessmentRe response = Some (w, g) →
  ∃ label, g = Some label ∧ label ∈ assessmentLabels
           ∧ assessmentLine response label.
Proof.
  intros (pre & post & -> & Hm)%exec_sound.
  apply matches_assessmentRe_inv in Hm
      as (ws & stars & label & stars' & -> & Hws & Hstars & Hlabel & ->).
  exists label. split_and!; [done | done |].
  exists pre, ws, stars, (stars' ++ post). split_and!; try done.
  by rewrite <- !app_assoc.
Qed.

(** The response has an ASSESSMENT line exactly when the pattern matches. *)
Lemma exec_assessmentRe_None (response : jsstring) :
  exec assessmentRe response = None ↔ ¬ hasAssessment response.
Proof.
  split.
  - intros Hnone (label & pre & ws & stars & post & -> & Hws & Hstars & Hlabel).
    assert (is_Some (exec assessmentRe
              (pre ++ js "ASSESSMENT:" ++ ws ++ stars ++ label ++ post)))
      as [a Ha]; [|congruence].
    apply exec_complete with
      (js "ASSESSMENT:" ++ ws ++ stars ++ label ++ []) (Some label);
      [apply noLookahead_assessmentRe|].
    exists pre, post. split; [|by apply matches_assessmentRe].
    by rewrite <- !app_assoc.
  - intros Hno. destruct (exec assessmentRe response) as [[w g]|] eqn:E; [|done].
    apply exec_assessmentRe_Some in E as (label & _ & _ & Hline).
    destruct Hno. by exists label.
Qed.

Lemma label_nonempty (label : jsstring) :
  label ∈ assessmentLabels → ∃ x l, label = x :: l.
Proof.
  intros Hl. apply list_elem_of_In in Hl. simpl in Hl.
  destruct Hl as [<-|[<-|[<-|[]]]]; vm_compute; eauto.
Qed.

(** [assessmentMatch?.[1] || 'NOT_IMPLEMENTED'] *)
Lemma assessment_of_response (response : jsstring) :
  let assessment := groupOr (exec assessmentRe response) NOT_IMPLEMENTED in
  assessment ∈ assessmentLabels
  ∧ (¬ hasAssessment response → assessment = NOT_IMPLEMENTED)
  ∧ (hasAssessment response → assessmentLine response assessment).
Proof.
  cbv zeta. destruct (exec assessmentRe response) as [[w g]|] eqn:E.
  - pose proof E as (label & -> & Hlabel & Hline)%exec_assessmentRe_Some.
    destruct (label_nonempty label Hlabel) as (x & l & ->). simpl.
    split_and!; [done | | done].
    intros Hno. apply exec_assessmentRe_None in Hno. congruence.
  - simpl. split_and!; [set_solver | done |].
    intros Hhas. by apply exec_assessmentRe_None in E.
Qed.

End AssessmentPattern.

(** ** The validate-feature handler *)

Section ValidateFeatureHandler.
Import RegExp ValidateFeature.
Context {S : Type} {V : Services S}.


End ValidateFeatureHandler.


(** ** Worked examples *)

Section Examples.
Import RegExp ValidateFeature.

(** The group of the ASSESSMENT pattern on the answer of the fixture. *)
Example assessment_partially :
  groupOr (exec assessmentRe Fixtures.agentText) NOT_IMPLEMENTED
  = PARTIALLY_IMPLEMENTED.
Proof. vm_compute. reflexivity. Qed.

Example assessment_fully_plain :
  groupOr (exec assessmentRe (js "Result. ASSESSMENT:FULLY_IMPLEMENTED"))
    NOT_IMPLEMENTED
  = FULLY_IMPLEMENTED.
Proof. vm_compute. reflexivity. Qed.

(** Three asterisks are one too many: no match, and the default. *)
Example assessment_three_asterisks :
  exec assessmentRe (js "ASSESSMENT: ***FULLY_IMPLEMENTED***") = None
  ∧ groupOr (exec assessmentRe (js "ASSESSMENT: ***FULLY_IMPLEMENTED***"))
      NOT_IMPLEMENTED
    = NOT_IMPLEMENTED.
Proof. vm_compute. split; reflexivity. Qed.

(** The leftmost well-formed line wins. *)
Example assessment_leftmost :
  groupOr
    (exec assessmentRe
       (js "ASSESSMENT: maybe. ASSESSMENT: *NOT_IMPLEMENTED* ASSESSMENT: FULLY_IMPLEMENTED"))
    FULLY_IMPLEMENTED
  = NOT_IMPLEMENTED.
Proof. vm_compute. reflexivity. Qed.

Example reasoning_and_evidence :
  groupOr (exec reasoningRe Fixtures.agentText) (js "Unable to determine reasoning")
  = js "The toggle exists but no styles are applied."
  ∧ groupOr (exec evidenceRe Fixtures.agentText) (js "No specific evidence provided")
    = js "src/theme.ts".
Proof. vm_compute. split; reflexivity. Qed.

(** An empty group counts as no evidence. *)
Example evidence_empty :
  groupOr (exec evidenceRe (js "EVIDENCE:")) (js "No specific evidence provided")
  = js "No specific evidence provided".
Proof. vm_compute. reflexivity. Qed.

(** The handler on an agent that answers nothing: 200, NOT_IMPLEMENTED. *)
Example validateFeature_empty_answer :
  (createValidateFeatureHandler (V := Fixtures.agentAnswers [])
     Fixtures.validateRequest tt).1
  = {| code := 200;
       body :=
         JObj [("success", JBool true);
               ("validation",
                 JObj [("assessment", JStr NOT_IMPLEMENTED);
                       ("reasoning", JStr (js "Unable to determine reasoning"));
                       ("evidence", JStr (js "No specific evidence provided"));
                       ("fullResponse", JStr [])])] |}.
Proof. vm_compute. reflexivity. Qed.

(** A session is gone once its lifetime is over, and the lookup evicts it. *)
Example session_expires :
  let cfg := Fixtures.testConfig in
  let st := (Auth.createSession cfg 0 Auth.emptyStore).2 in
  is_Some (Auth.getSession (Auth.SESSION_MAX_AGE cfg - 1) "tok-0" st).1
  ∧ (Auth.getSession (Auth.SESSION_MAX_AGE cfg) "tok-0" st).1 = None
  ∧ Auth.validSessions (Auth.getSession (Auth.SESSION_MAX_AGE cfg) "tok-0" st).2 = ∅.
Proof. vm_compute. split_and!; [eexists|..]; reflexivity. Qed.

End Examples.

(** * More of the code *)

(** ** The router of the auth routes *)

Section Router.
Import Express AuthRoutes.
Context {W : Type} {L : AuthLib W}.

Lemma createAuthRoutes_Some (production : bool) (method : Method)
  (route : string) (handler : Request → M W unit) :
  createAuthRoutes production method route = Some handler →
  (method = GET ∧ route = "/status" ∧ handler = getStatus)
  ∨ (method = GET ∧ route = "/token" ∧ handler = getToken)
  ∨ (method = POST ∧ route = "/login" ∧ handler = postLogin)
  ∨ (method = POST ∧ route = "/logout" ∧ handler = postLogout production).
Proof.
  unfold createAuthRoutes. destruct method.
  - destruct (String.eqb_spec route "/status") as [->|_]; [intros [= <-]; auto|].
    destruct (String.eqb_spec route "/token") as [->|_]; [intros [= <-]; auto|].
    done.
  - destruct (String.eqb_spec route "/login") as [->|_]; [intros [= <-]; auto 6|].
    destruct (String.eqb_spec route "/logout") as [->|_]; [intros [= <-]; auto 6|].
    done.
Qed.

(** The final state of each handler, by cases on what the library
    answered. *)
Lemma postLogin_cases (req : Request) (w : W) :
  let h := handle (postLogin req) w in
  (h = {| lib := w;
          res := replied 400 [400] (failure "API key is required.") [];
          trace := [] |})
  ∨ (∃ apiKey,
       h = {| lib := (validateApiKey apiKey w).2;
              res := replied 401 [401] (failure "Invalid API key.") [];
              trace := [EvValidateApiKey apiKey] |})
  ∨ (∃ apiKey token w',
       h = {| lib := w';
              res := replied 200 []
                       (JObj [("success", JBool true);
                              ("message", JStr "Logged in successfully.");
                              ("token", JStr token)])
                       [SetCookie getSessionCookieName token getSessionCookieOptions];
              trace := [EvValidateApiKey apiKey; EvCreateSession] |}).
Proof.
  cbv zeta. destruct (asTruthy (body_apiKey req)) as [apiKey|] eqn:E.
  - destruct (validateApiKey apiKey w).1 eqn:Hv.
    + right. right. rewrite (postLogin_run_valid req w apiKey E Hv). eauto.
    + right. left. rewrite (postLogin_run_invalid req w apiKey E Hv). eauto.
  - left. by apply postLogin_run_missing.
Qed.

Lemma getToken_cases (req : Request) (w : W) :
  let h := handle (getToken req) w in
  (h = {| lib := (isRequestAuthenticated req w).2;
          res := replied 401 [401] (failure "Authentication required.") [];
          trace := [EvIsRequestAuthenticated] |})
  ∨ (∃ token w',
       h = {| lib := w'; res := tokenReply token;
              trace := [EvIsRequestAuthenticated; EvCreateWsConnectionToken] |}).
Proof.
  cbv zeta. destruct (isRequestAuthenticated req w).1 eqn:Ha.
  - right. rewrite (getToken_run_authenticated req w Ha). eauto.
  - left. by apply getToken_run_unauthenticated.
Qed.

Lemma postLogout_cases (production : bool) (req : Request) (w : W) :
  let h := handle (postLogout production req) w in
  h = {| lib := w; res := loggedOut production; trace := [] |}
  ∨ ∃ token,
      h = {| lib := invalidateSession token w; res := loggedOut production;
             trace := [EvInvalidateSession token] |}.
Proof.
  cbv zeta.
  destruct (asTruthy (cookies req ≫= λ c, c !! getSessionCookieName))
    as [token|] eqn:E.
  - right. exists token. by apply postLogout_run_cookie.
  - left. by apply postLogout_run_no_cookie.
Qed.

Ltac route_cases Hroute req w :=
  apply createAuthRoutes_Some in Hroute
      as [(-> & -> & ->)|[(-> & -> & ->)|[(-> & -> & ->)|(-> & -> & ->)]]];
  [rewrite (getStatus_run req w)
  |destruct (getToken_cases req w) as [->|(? & ? & ->)]
  |destruct (postLogin_cases req w) as [->|[(? & ->)|(? & ? & ? & ->)]]
  |match goal with
   | |- context [postLogout ?p] =>
       destruct (postLogout_cases p req w) as [->|(? & ->)]
   end].

(** Every route of the router answers exactly once when the functions it
    imports return, whatever they return (none of the handlers catches, so
    a call that throws is outside this statement): one JSON body, whose
    [success] field is [true] exactly when the status is 200; the status is
    200, 400 or 401, set by one [res.status] call unless it is 200; and
    [next] is never called. *)
Theorem auth_routes_answer_once (production : bool) (method : Method)
  (route : string) (handler : Request → M W unit) (req : Request) (w : W) :
  createAuthRoutes production method route = Some handler →
  let h := handle (handler req) w in
  ∃ body,
    sent (res h) = [body]
    ∧ successFlag body = Some (statusCode (res h) =? 200)
    ∧ statusCode (res h) ∈ [200; 400; 401]
    ∧ statusCalls (res h)
      = (if statusCode (res h) =? 200 then [] else [statusCode (res h)])
    ∧ EvNext ∉ trace h.
Proof.
  intros Hroute. cbv zeta. route_cases Hroute req w.
  all: eexists; split_and!; [reflexivity | reflexivity | set_solver | reflexivity |].
  all: intros Hin; repeat (apply elem_of_cons in Hin as [Hin|Hin]; [done|]);
    by apply elem_of_nil in Hin.
Qed.

(** What each route may do.  Only [POST /login] validates an API key,
    creates a session or sets a cookie, and it sets the cookie only with
    status 200; only [POST /logout] invalidates a session or clears a
    cookie; only [GET /token] issues a connection token, and only with
    status 200. *)
Theorem auth_routes_privileges (production : bool) (method : Method)
  (route : string) (handler : Request → M W unit) (req : Request) (w : W) :
  createAuthRoutes production method route = Some handler →
  let h := handle (handler req) w in
  ((∃ key, EvValidateApiKey key ∈ trace h) →
     method = POST ∧ route = "/login")
  ∧ (EvCreateSession ∈ trace h ∨ (∃ n v o, SetCookie n v o ∈ cookieOps (res h)) →
     method = POST ∧ route = "/login" ∧ statusCode (res h) = 200)
  ∧ ((∃ token, EvInvalidateSession token ∈ trace h)
     ∨ (∃ n o, ClearCookie n o ∈ cookieOps (res h)) →
     method = POST ∧ route = "/logout")
  ∧ (EvCreateWsConnectionToken ∈ trace h →
     method = GET ∧ route = "/token" ∧ statusCode (res h) = 200).
Proof.
  intros Hroute. cbv zeta. route_cases Hroute req w.
  all: simpl; split_and!; try done.
  all: try (intros [key Hin];
            repeat (apply elem_of_cons in Hin as [Hin|Hin]; [done|]);
            by apply elem_of_nil in Hin).
  all: try (intros Hin;
            repeat (apply elem_of_cons in Hin as [Hin|Hin]; [done|]);
            by apply elem_of_nil in Hin).
  all: intros [Hin|Hin];
    repeat match type of Hin with
           | ∃ _, _ => destruct Hin as [? Hin]
           end;
    repeat (apply elem_of_cons in Hin as [Hin|Hin]; [done|]);
    by apply elem_of_nil in Hin.
Qed.

(** [/status] and [/token] agree: on the same request and library state,
    [/token] refuses with 401 exactly when [/status] reports
    [authenticated: false], and then both leave the library as
    [isRequestAuthenticated] left it; otherwise [/token] replies 200. *)
Theorem status_and_token_agree (req : Request) (w : W) :
  let status := handle (getStatus req) w in
  let token := handle (getToken req) w in
  let reports (b : bool) :=
    sent (res status)
    = [JObj [("success", JBool true); ("authenticated", JBool b);
             ("required", JBool true)]] in
  (statusCode (res token) = 401 ↔ reports false)
  ∧ (statusCode (res token) = 200 ↔ reports true)
  ∧ (statusCode (res token) = 401 → lib token = lib status).
Proof.
  cbv zeta. rewrite getStatus_run.
  destruct (isRequestAuthenticated req w).1 eqn:Ha.
  - rewrite (getToken_run_authenticated req w Ha). simpl.
    split; [split; done|]. split; done.
  - rewrite (getToken_run_unauthenticated req w Ha). simpl.
    split; [done|]. split; [split; done | done].
Qed.

(** Login and logout fit together: after a login that accepted the key, a
    logout request that carries the cookie login set (under the name login
    set it, with the non-empty token login set) invalidates exactly that
    token and clears the cookie of that name. *)
Theorem login_then_logout (production : bool) (req req' : Request) (w w' : W)
  (apiKey : string) :
  body_apiKey req = Some apiKey → apiKey ≠ "" →
  (validateApiKey apiKey w).1 = true →
  ∃ name token options,
    cookieOps (res (handle (postLogin req) w)) = [SetCookie name token options]
    ∧ token = (createSession (validateApiKey apiKey w).2).1
    ∧ (token ≠ "" →
       cookies req' ≫= (λ c, c !! name) = Some token →
       let h := handle (postLogout production req') w' in
       trace h = [EvInvalidateSession token]
       ∧ lib h = invalidateSession token w'
       ∧ cookieOps (res h)
         = [ClearCookie name
              {| httpOnly := true; secure := production;
                 sameSite := "strict"; path := "/" |}]).
Proof.
  intros Hbody Hne Hv.
  assert (asTruthy (body_apiKey req) = Some apiKey) as E by by apply asTruthy_Some.
  rewrite (postLogin_run_valid req w apiKey E Hv). simpl.
  eexists _, _, _. split_and!; [reflexivity | reflexivity |].
  intros Htoken Hcookie. cbv zeta.
  by rewrite (postLogout_run_cookie production req' w' _)
    by by apply asTruthy_Some.
Qed.

End Router.

Lemma auth_routes_answer_once_witness :
  ∃ body,
    Express.sent
      (Express.res
         (Express.handle
            (AuthRoutes.postLogin (L := AuthRoutes.authLib Fixtures.testConfig 0)
               (Fixtures.withBodyKey "wrong-key")) Auth.emptyStore))
    = [body]
    ∧ successFlag body = Some false.
Proof.
  destruct (auth_routes_answer_once
              (L := AuthRoutes.authLib Fixtures.testConfig 0) false
              AuthRoutes.POST "/login" AuthRoutes.postLogin
              (Fixtures.withBodyKey "wrong-key") Auth.emptyStore eq_refl)
    as (body & Hsent & Hflag & _).
  exists body. split; [exact Hsent|]. rewrite Hflag. vm_compute. reflexivity.
Defined.

Lemma auth_routes_privileges_witness :
  Express.statusCode
    (Express.res
       (Express.handle
          (AuthRoutes.getToken (L := AuthRoutes.authLib Fixtures.testConfig 0)
             (Fixtures.withApiKeyHeader "test-secret-key")) Auth.emptyStore))
  = 200.
Proof.
  destruct (auth_routes_privileges
              (L := AuthRoutes.authLib Fixtures.testConfig 0) false
              AuthRoutes.GET "/token" AuthRoutes.getToken
              (Fixtures.withApiKeyHeader "test-secret-key") Auth.emptyStore eq_refl)
    as (_ & _ & _ & Hissue).
  apply Hissue. vm_compute. apply list_elem_of_further, list_elem_of_here.
Defined.

Lemma status_and_token_agree_witness :
  Express.statusCode
    (Express.res
       (Express.handle
          (AuthRoutes.getToken (L := AuthRoutes.authLib Fixtures.testConfig 0)
             Fixtures.mockRequest) Auth.emptyStore))
  = 401.
Proof.
  destruct (status_and_token_agree
              (L := AuthRoutes.authLib Fixtures.testConfig 0)
              Fixtures.mockRequest Auth.emptyStore) as ([_ Hrefused] & _).
  apply Hrefused. vm_compute. reflexivity.
Defined.

Lemma login_then_logout_witness :
  ∃ name token options,
    Express.cookieOps
      (Express.res
         (Express.handle
            (AuthRoutes.postLogin (L := AuthRoutes.authLib Fixtures.testConfig 0)
               (Fixtures.withBodyKey "test-secret-key")) Auth.emptyStore))
    = [Express.SetCookie name token options]
    ∧ Express.trace
        (Express.handle
           (AuthRoutes.postLogout (L := AuthRoutes.authLib Fixtures.testConfig 0)
              false (Fixtures.withCookie "tok-0")) Auth.emptyStore)
      = [Express.EvInvalidateSession token].
Proof.
  destruct (login_then_logout
              (L := AuthRoutes.authLib Fixtures.testConfig 0) false
              (Fixtures.withBodyKey "test-secret-key") (Fixtures.withCookie "tok-0")
              Auth.emptyStore Auth.emptyStore "test-secret-key")
    as (name & token & options & Hset & Htoken & Hlogout).
  { reflexivity. }
  { vm_compute. discriminate. }
  { vm_compute. reflexivity. }
  exists name, token, options. split; [exact Hset|].
  apply Hlogout.
  - rewrite Htoken. vm_compute. discriminate.
  - vm_compute in Hset. injection Hset as <- <- _. vm_compute. reflexivity.
Defined.


(** ** The runs of the validate-feature handler *)

Section HandlerRuns.
Import RegExp ValidateFeature ServiceLog.
Local Open Scope list_scope.
Context {S : Type} (V : Services S).

(** Logging changes neither the reply nor the services' final state. *)
Lemma logging_transparent (req : ValidateFeatureRequest) (s : S) (log : list Entry) :
  let logged := createValidateFeatureHandler (V := logging V) req (s, log) in
  let plain := createValidateFeatureHandler (V := V) req s in
  logged.1 = plain.1 ∧ logged.2.1 = plain.2.
Proof.
  cbv zeta. unfold createValidateFeatureHandler. simpl. unfold logged. simpl.
  destruct (featureLoader_get _ _ s) as [[[feature|]|error] s1]; simpl; try done.
  destruct (agentService_createSession _ _ _ s1) as [[session|error] s2];
    simpl; try done.
  destruct (agentService_startConversation _ _ s2) as [[[]|error] s3];
    simpl; try done.
  destruct (agentService_sendMessage _ _ _ s3) as [[result|error] s4]; simpl.
  2: { by destruct (agentService_deleteSession _ s4). }
  destruct (success result); simpl.
  2: { by destruct (agentService_deleteSession _ s4). }
  by destruct (agentService_deleteSession _ s4) as [[[]|error] s5].
Qed.

Lemma replyAndCalls_reply (req : ValidateFeatureRequest) (s : S) :
  (replyAndCalls V req s).1 = (createValidateFeatureHandler (V := V) req s).1.
Proof.
  unfold replyAndCalls.
  pose proof (logging_transparent req s []) as [Hreply _]. cbv zeta in Hreply.
  destruct (createValidateFeatureHandler (V := logging V) req (s, []))
    as [reply [s' log]]. done.
Qed.

(** Every run of the handler is one of the eight of [Run]. *)
Lemma handler_run (req : ValidateFeatureRequest) (s : S) :
  Run req (replyAndCalls V req s).2 (replyAndCalls V req s).1.
Proof.
  unfold replyAndCalls, createValidateFeatureHandler. simpl. unfold logged. simpl.
  destruct (featureLoader_get _ _ s) as [[[feature|]|error] s1]; simpl;
    [|apply Run_notFound|apply Run_loadThrows].
  destruct (agentService_createSession _ _ _ s1) as [[session|error] s2];
    simpl; [|apply Run_createThrows].
  destruct (agentService_startConversation _ _ s2) as [[[]|error] s3];
    simpl; [|apply Run_startThrows].
  destruct (agentService_sendMessage _ _ _ s3) as [[result|error] s4]; simpl.
  2: { destruct (agentService_deleteSession _ s4) as [[[]|error'] s5]; simpl;
         apply Run_sendThrows; [by left | right; eauto]. }
  destruct (success result) eqn:Hsuccess; simpl.
  2: { destruct (agentService_deleteSession _ s4) as [[[]|error'] s5]; simpl;
         apply Run_unsuccessful; [done | by left | done | right; eauto]. }
  destruct (agentService_deleteSession _ s4) as [[[]|error] s5]; simpl.
  - by apply Run_validated.
  - by apply Run_cleanupThrows.
Qed.

Ltac run_cases Hrun :=
  let reply := fresh "reply" in
  let log := fresh "log" in
  match type of Hrun with
  | Run _ (?p).2 _ => destruct p as [reply log]
  end;
  simpl in Hrun |- *;
  destruct Hrun as [message| |feature message|feature session message
                   |feature session message cleanup Hcleanup
                   |feature session result cleanup Hsuccess Hcleanup
                   |feature session result message Hsuccess
                   |feature session result Hsuccess];
  try (destruct Hcleanup as [->|[? ->]]).

Ltac in_log H :=
  unfold getCall, createCall, startCall, sendCall, deleteCall in H;
  repeat match type of H with
         | _ ∈ _ :: _ => apply elem_of_cons in H as [H|H]
         | _ ∈ [] => by apply elem_of_nil in H
         end;
  simplify_eq.

(** The handler calls [featureLoader.get], [createSession],
    [startConversation], [sendMessage] and [deleteSession] in this order,
    each at most once, and stops early on a failure.  The session it
    starts, messages and deletes is the one [createSession] returned, the
    prompt is made from the feature [featureLoader.get] returned, and
    [projectPath] is the working directory throughout. *)
Theorem validateFeature_call_order (req : ValidateFeatureRequest) (s : S) :
  let log := (replyAndCalls V req s).2 in
  ∃ feature session,
    log.*1 `prefix_of`
      [getCall req; createCall req feature; startCall req session;
       sendCall req feature session; deleteCall session]
    ∧ log ≠ []
    ∧ (∀ c f, (c, GotFeature (Some f)) ∈ log → f = feature)
    ∧ (∀ c ss, (c, GotSession ss) ∈ log → ss = session).
Proof.
  cbv zeta. pose proof (handler_run req s) as Hrun. run_cases Hrun.
  all: first [exists feature, session | exists feature, noSession
             | exists noFeature, noSession].
  all: split_and!;
    [eexists; reflexivity | done
    | intros c f Hin; in_log Hin; done
    | intros c ss Hin; in_log Hin; done].
Qed.

(** The reply is 200 exactly when the feature was found, each of the five
    calls returned, the last of them the [deleteSession] that cleans up,
    and the agent's result reported success. *)
Theorem validateFeature_success_iff (req : ValidateFeatureRequest) (s : S) :
  let reply := (createValidateFeatureHandler (V := V) req s).1 in
  let log := (replyAndCalls V req s).2 in
  code reply = 200 ↔
  ∃ feature session result,
    success result = true
    ∧ log = [(getCall req, GotFeature (Some feature));
             (createCall req feature, GotSession session);
             (startCall req session, Done);
             (sendCall req feature session, GotResult result);
             (deleteCall session, Done)].
Proof.
  cbv zeta. rewrite <- (replyAndCalls_reply req s).
  pose proof (handler_run req s) as Hrun. run_cases Hrun.
  all: split;
    [try done; intros _; by exists feature, session, result
    |intros (feature' & session' & result' & Hsuccess' & Hlog);
     unfold getCall, createCall, startCall, sendCall, deleteCall in Hlog;
     simplify_eq; try done; congruence].
Qed.

(** The reply is 404 exactly when [featureLoader.get] returned no feature;
    the agent service is then not called at all. *)
Theorem validateFeature_not_found_iff (req : ValidateFeatureRequest) (s : S) :
  let reply := (createValidateFeatureHandler (V := V) req s).1 in
  let log := (replyAndCalls V req s).2 in
  (code reply = 404 ↔ log = [(getCall req, GotFeature None)])
  ∧ (code reply = 404 →
     reply = replyWith 404 "Feature not found"
     ∧ List.filter isAgentCall log = []).
Proof.
  cbv zeta. rewrite <- (replyAndCalls_reply req s).
  pose proof (handler_run req s) as Hrun. run_cases Hrun;
    (split; [split|]); done.
Qed.

(** [deleteSession] is called exactly when [sendMessage] was called, then
    once, as the last call.  When [startConversation] throws, the session
    [createSession] returned is not deleted. *)
Theorem validateFeature_cleanup (req : ValidateFeatureRequest) (s : S) :
  let log := (replyAndCalls V req s).2 in
  let deletes := List.filter isDelete log in
  (length deletes ≤ 1)%nat
  ∧ (deletes ≠ [] ↔
     ∃ sessionId message workingDirectory r,
       (AgentSendMessage sessionId message workingDirectory, r) ∈ log)
  ∧ (∀ e, e ∈ deletes → last log = Some e)
  ∧ (∀ sessionId workingDirectory message,
       (AgentStartConversation sessionId workingDirectory, Threw message) ∈ log →
       deletes = []
       ∧ ∃ c session, (c, GotSession session) ∈ log ∧ id session = sessionId).
Proof.
  cbv zeta. pose proof (handler_run req s) as Hrun. run_cases Hrun.
  all: (split; [|split; [|split]]);
    [simpl; lia
    | split;
      [try done; intros _; do 4 eexists;
       do 3 apply list_elem_of_further; apply list_elem_of_here
      | intros (? & ? & ? & ? & Hin); in_log Hin; done]
    | intros e He; simpl in He; in_log He; done
    | intros sid wd msg Hin; in_log Hin;
      (split; [done|]; exists (createCall req feature), session;
       (split; [apply list_elem_of_further, list_elem_of_here | done]))].
Qed.

(** Which thrown errors reach the client.  The message of an error thrown by
    [featureLoader.get], or by [deleteSession] after a successful answer,
    is the [error] of the 500 reply.  An error thrown by [createSession],
    [startConversation] or [sendMessage] is replaced by a fixed text, and
    an error of [deleteSession] on those paths or after an unsuccessful
    answer is swallowed. *)
Theorem validateFeature_errors (req : ValidateFeatureRequest) (s : S) :
  let reply := (createValidateFeatureHandler (V := V) req s).1 in
  let log := (replyAndCalls V req s).2 in
  (∀ message, (getCall req, Threw message) ∈ log →
     reply = {| code := 500; body := failure message |})
  ∧ (∀ name p w message, (AgentCreateSession name p w, Threw message) ∈ log →
     reply = replyWith 500 "Failed to create agent session")
  ∧ (∀ sessionId w message, (AgentStartConversation sessionId w, Threw message) ∈ log →
     reply = replyWith 500 "Failed to create agent session")
  ∧ (∀ sessionId text w message,
       (AgentSendMessage sessionId text w, Threw message) ∈ log →
       reply = replyWith 500 "Failed to send message to agent")
  ∧ (∀ sessionId text w result,
       (AgentSendMessage sessionId text w, GotResult result) ∈ log →
       success result = false →
       reply = replyWith 500 "Failed to validate feature")
  ∧ (∀ sessionId text w result sessionId' message,
       (AgentSendMessage sessionId text w, GotResult result) ∈ log →
       success result = true →
       (AgentDeleteSession sessionId', Threw message) ∈ log →
       reply = {| code := 500; body := failure message |}).
Proof.
  cbv zeta. rewrite <- (replyAndCalls_reply req s).
  pose proof (handler_run req s) as Hrun. run_cases Hrun.
  all: split_and!; intros;
    repeat match goal with H : _ ∈ _ |- _ => in_log H end; try done; congruence.
Qed.

(** When [sendMessage] returned a result that reports success but has no
    text (no message, no content, or empty content), and the
    [deleteSession] that follows returned, the reply is 200 with the
    assessment [NOT_IMPLEMENTED], the fallback reasoning and evidence, and
    an empty [fullResponse]. *)
Theorem validateFeature_no_text (req : ValidateFeatureRequest) (s : S)
  (sessionId text w deleted : jsstring) (answered : SendResult) :
  let reply := (createValidateFeatureHandler (V := V) req s).1 in
  let log := (replyAndCalls V req s).2 in
  (AgentSendMessage sessionId text w, GotResult answered) ∈ log →
  success answered = true →
  (AgentDeleteSession deleted, Done) ∈ log →
  message answered = None
  ∨ (∃ msg, message answered = Some msg
            ∧ (content msg = None ∨ content msg = Some [])) →
  reply
  = {| code := 200;
       body :=
         JObj [("success", JBool true);
               ("validation",
                 JObj [("assessment", JStr NOT_IMPLEMENTED);
                       ("reasoning", JStr (js "Unable to determine reasoning"));
                       ("evidence", JStr (js "No specific evidence provided"));
                       ("fullResponse", JStr [])])] |}.
Proof.
  cbv zeta. rewrite <- (replyAndCalls_reply req s).
  pose proof (handler_run req s) as Hrun. run_cases Hrun.
  all: intros Hin Hsuccess' Hdeleted Htext; in_log Hin; in_log Hdeleted;
    try congruence.
  assert (responseText result = []) as Hresponse.
  { unfold responseText.
    destruct Htext as [->|(msg & -> & [->| ->])]; done. }
  unfold validated. rewrite Hresponse. vm_compute. reflexivity.
Qed.

End HandlerRuns.

Lemma validateFeature_call_order_witness :
  ∃ feature session,
    (ServiceLog.replyAndCalls (Scenarios.allWell Fixtures.agentText)
       Scenarios.request tt).2.*1
    `prefix_of`
      [ServiceLog.getCall Scenarios.request;
       ServiceLog.createCall Scenarios.request feature;
       ServiceLog.startCall Scenarios.request session;
       ServiceLog.sendCall Scenarios.request feature session;
       ServiceLog.deleteCall session]
    ∧ feature = Scenarios.darkMode
    ∧ session = Scenarios.session1.
Proof.
  destruct (validateFeature_call_order (Scenarios.allWell Fixtures.agentText)
              Scenarios.request tt)
    as (feature & session & Hprefix & _ & Hfeature & Hsession).
  exists feature, session. split; [exact Hprefix|]. split.
  - symmetry. apply (Hfeature (ServiceLog.getCall Scenarios.request)).
    vm_compute. apply list_elem_of_here.
  - symmetry.
    apply (Hsession (ServiceLog.createCall Scenarios.request Scenarios.darkMode)).
    vm_compute. apply list_elem_of_further, list_elem_of_here.
Defined.

Lemma validateFeature_success_iff_witness :
  ∃ feature session result,
    ValidateFeature.success result = true
    ∧ (ServiceLog.replyAndCalls (Scenarios.allWell Fixtures.agentText)
         Scenarios.request tt).2
      = [(ServiceLog.getCall Scenarios.request,
           ServiceLog.GotFeature (Some feature));
         (ServiceLog.createCall Scenarios.request feature,
           ServiceLog.GotSession session);
         (ServiceLog.startCall Scenarios.request session, ServiceLog.Done);
         (ServiceLog.sendCall Scenarios.request feature session,
           ServiceLog.GotResult result);
         (ServiceLog.deleteCall session, ServiceLog.Done)].
Proof.
  apply (validateFeature_success_iff (Scenarios.allWell Fixtures.agentText)
           Scenarios.request tt).
  vm_compute. reflexivity.
Defined.

Lemma validateFeature_not_found_iff_witness :
  (ValidateFeature.createValidateFeatureHandler (V := Scenarios.unknownFeature)
     Scenarios.request tt).1
  = ServiceLog.replyWith 404 "Feature not found"
  ∧ List.filter ServiceLog.isAgentCall
      (ServiceLog.replyAndCalls Scenarios.unknownFeature Scenarios.request tt).2
    = [].
Proof.
  apply (validateFeature_not_found_iff Scenarios.unknownFeature Scenarios.request tt).
  vm_compute. reflexivity.
Defined.

Lemma validateFeature_cleanup_witness :
  List.filter ServiceLog.isDelete
    (ServiceLog.replyAndCalls Scenarios.startFails Scenarios.request tt).2
  = []
  ∧ ∃ c session,
      (c, ServiceLog.GotSession session)
      ∈ (ServiceLog.replyAndCalls Scenarios.startFails Scenarios.request tt).2
      ∧ ValidateFeature.id session = js "session-1".
Proof.
  destruct (validateFeature_cleanup Scenarios.startFails Scenarios.request tt)
    as (_ & _ & _ & Hleak).
  apply (Hleak (js "session-1") (js "/project") (js "no memory")).
  vm_compute. do 2 apply list_elem_of_further. apply list_elem_of_here.
Defined.

Lemma validateFeature_errors_witness :
  (ValidateFeature.createValidateFeatureHandler
     (V := Scenarios.sendAndCleanupFail) Scenarios.request tt).1
  = ServiceLog.replyWith 500 "Failed to send message to agent".
Proof.
  destruct (validateFeature_errors Scenarios.sendAndCleanupFail Scenarios.request tt)
    as (_ & _ & _ & Hsend & _).
  apply (Hsend (js "session-1")
           (ValidateFeature.validationPrompt Scenarios.darkMode)
           (js "/project") (js "timeout")).
  vm_compute. do 3 apply list_elem_of_further. apply list_elem_of_here.
Defined.

Lemma validateFeature_no_text_witness :
  (ValidateFeature.createValidateFeatureHandler (V := Scenarios.noText)
     Scenarios.request tt).1
  = {| ValidateFeature.code := 200;
       ValidateFeature.body :=
         JObj [("success", JBool true);
               ("validation",
                 JObj [("assessment", JStr ValidateFeature.NOT_IMPLEMENTED);
                       ("reasoning", JStr (js "Unable to determine reasoning"));
                       ("evidence", JStr (js "No specific evidence provided"));
                       ("fullResponse", JStr [])])] |}.
Proof.
  apply (validateFeature_no_text Scenarios.noText Scenarios.request tt
           (js "session-1") (ValidateFeature.validationPrompt Scenarios.darkMode)
           (js "/project") (js "session-1")
           {| ValidateFeature.success := true; ValidateFeature.message := None |}).
  - vm_compute. do 3 apply list_elem_of_further. apply list_elem_of_here.
  - reflexivity.
  - vm_compute. do 4 apply list_elem_of_further. apply list_elem_of_here.
  - by left.
Defined.

(** ** Which match the handler's patterns find *)

Section Parsing.
Import RegExp ValidateFeature Parsed.
Local Open Scope list_scope.

(** [exec] returns the leftmost match: no earlier position matches. *)
Lemma exec_leftmost (r : regex) (s w : jsstring) g :
  exec r s = Some (w, g) →
  ∃ pre post,
    s = pre ++ w ++ post
    ∧ matchAt r (w ++ post) = Some (w, g)
    ∧ ∀ pre1 suf, s = pre1 ++ suf → (length pre1 < length pre)%nat →
                  matchAt r suf = None.
Proof.
  revert w g. induction s as [|x s IH]; intros w g; simpl.
  - destruct (matchAt r []) as [a|] eqn:E; [|done]. intros [= ->].
    pose proof E as (post & Hs & _)%matchAt_sound.
    exists [], post. split_and!; [done | by rewrite <- Hs |].
    intros pre1 suf _ Hlen. simpl in Hlen. lia.
  - destruct (matchAt r (x :: s)) as [a|] eqn:E.
    + intros [= ->].
      pose proof E as (post & Hs & _)%matchAt_sound.
      exists [], post. split_and!; [done | by rewrite <- Hs |].
      intros pre1 suf _ Hlen. simpl in Hlen. lia.
    + intros (pre & post & -> & Hat & Hleft)%IH.
      exists (x :: pre), post. split_and!; [done | done |].
      intros [|y pre1] suf Heq Hlen; simpl in *.
      * by subst.
      * injection Heq as -> Heq. apply (Hleft pre1); [done | lia].
Qed.

(** Two runs of a class, each followed by a code unit outside it, are the
    same run. *)
Lemma run_unique (p : N → bool) (u u' v v' : jsstring) :
  Forall (λ x, p x = true) u → Forall (λ x, p x = true) u' →
  (∃ x t, v = x :: t ∧ p x = false) → (∃ x t, v' = x :: t ∧ p x = false) →
  u ++ v = u' ++ v' → u = u' ∧ v = v'.
Proof.
  intros Hu. revert u'. induction Hu as [|y u Hy Hu IH];
    intros u' Hu' (x & t & -> & Hx) (x' & t' & -> & Hx') Heq.
  - destruct Hu' as [|y' u' Hy' Hu']; [done|].
    simpl in Heq. injection Heq as -> _. congruence.
  - destruct Hu' as [|y' u' Hy' Hu'].
    + simpl in Heq. injection Heq as -> _. congruence.
    + simpl in Heq. injection Heq as -> Heq.
      destruct (IH u' Hu') as [-> ?]; eauto.
Qed.

Lemma label_head (label : jsstring) :
  label ∈ assessmentLabels →
  ∃ x t, label = x :: t ∧ isSpace x = false ∧ N.eqb x asterisk = false.
Proof.
  intros Hl. apply list_elem_of_In in Hl. simpl in Hl.
  destruct Hl as [<-|[<-|[<-|[]]]]; vm_compute; eauto.
Qed.

Lemma stars_all (stars : jsstring) :
  upToTwoAsterisks stars → Forall (λ x, N.eqb x asterisk = true) stars.
Proof.
  intros Hs. apply list_elem_of_In in Hs. simpl in Hs.
  destruct Hs as [<-|[<-|[<-|[]]]]; repeat constructor.
Qed.

Lemma stars_head (stars rest : jsstring) :
  upToTwoAsterisks stars →
  (∃ x t, rest = x :: t ∧ isSpace x = false) →
  ∃ x t, stars ++ rest = x :: t ∧ isSpace x = false.
Proof.
  intros Hs (x & t & -> & Hx). apply list_elem_of_In in Hs. simpl in Hs.
  destruct Hs as [<-|[<-|[<-|[]]]]; simpl; eauto.
Qed.

Lemma labels_prefix_free (label label' post post' : jsstring) :
  label ∈ assessmentLabels → label' ∈ assessmentLabels →
  label ++ post = label' ++ post' → label = label'.
Proof.
  intros Hl Hl' Heq.
  apply list_elem_of_In in Hl. apply list_elem_of_In in Hl'. simpl in Hl, Hl'.
  destruct Hl as [<-|[<-|[<-|[]]]]; destruct Hl' as [<-|[<-|[<-|[]]]];
    first [reflexivity | vm_compute in Heq; discriminate].
Qed.

(** At one position there is at most one well-formed ASSESSMENT line. *)
Lemma lineAt_unique (text label label' : jsstring) :
  lineAt text label → lineAt text label' → label = label'.
Proof.
  intros (ws & stars & post & -> & Hws & Hstars & Hlabel)
         (ws' & stars' & post' & Heq & Hws' & Hstars' & Hlabel').
  apply app_inv_head in Heq.
  destruct (label_head label Hlabel) as (x & t & Hx & Hxs & Hxa).
  destruct (label_head label' Hlabel') as (x' & t' & Hx' & Hxs' & Hxa').
  apply (run_unique isSpace) in Heq as [_ Heq]; [|done|done| |].
  2: { apply stars_head; [done|]. exists x, (t ++ post). by rewrite Hx. }
  2: { apply stars_head; [done|]. exists x', (t' ++ post'). by rewrite Hx'. }
  apply (run_unique (λ c, N.eqb c asterisk)) in Heq as [_ Heq];
    [|by apply stars_all|by apply stars_all| |].
  2: { exists x, (t ++ post). by rewrite Hx. }
  2: { exists x', (t' ++ post'). by rewrite Hx'. }
  by eapply labels_prefix_free.
Qed.

Lemma lineAt_matchAt (text label : jsstring) :
  lineAt text label → is_Some (matchAt assessmentRe text).
Proof.
  intros (ws & stars & post & -> & Hws & Hstars & Hlabel).
  pose proof (matches_assessmentRe ws stars label post Hws Hstars Hlabel) as Hm.
  unfold matchAt.
  replace (js "ASSESSMENT:" ++ ws ++ stars ++ label ++ post)
    with ((js "ASSESSMENT:" ++ ws ++ stars ++ label ++ []) ++ post)
    by by rewrite <- !app_assoc.
  by eapply m_complete.
Qed.

Lemma matchAt_lineAt (text w : jsstring) g :
  matchAt assessmentRe text = Some (w, g) →
  ∃ label, g = Some label ∧ lineAt text label.
Proof.
  intros (post & -> & Hm)%matchAt_sound.
  apply matches_assessmentRe_inv in Hm
      as (ws & stars & label & stars' & -> & Hws & Hstars & Hlabel & ->).
  exists label. split; [done|].
  exists ws, stars, (stars' ++ post). split_and!; try done.
  by rewrite <- !app_assoc.
Qed.


Lemma m_Seq_sound {R : Type} (r1 r2 : regex) s c (k : Cont R) x :
  m (Seq r1 r2) s c k = Some x →
  ∃ u s' c', s = u ++ s' ∧ matches r1 u s' c c' ∧ m r2 s' c' k = Some x.
Proof. intros Hrun. by apply (m_sound r1) in Hrun. Qed.

Lemma m_UpTo2_total {R : Type} (r : regex) (k : Cont R) s c :
  (∀ s c, is_Some (k s c)) → is_Some (m (UpTo2 r) s c k).
Proof.
  intros Hk. unfold UpTo2, Opt. simpl. destruct (m r s c _); [done | apply Hk].
Qed.

(** A greedy star over a class takes the whole run when nothing after it
    can fail. *)
Lemma starLoop_greedy_run {R : Type}
  (body : jsstring → option jsstring → Cont R → option R)
  (p : N → bool) (k : Cont R) (fuel : nat) s c :
  (∀ s c K, body s c K = match s with
                         | x :: s' => if p x then K s' c else None
                         | [] => None
                         end) →
  (∀ s c, is_Some (k s c)) → (length s ≤ fuel)%nat →
  ∃ run rest,
    s = run ++ rest ∧ Forall (λ x, p x = true) run ∧ endsRun p rest
    ∧ starLoop body true k fuel s c = k rest c.
Proof.
  intros Hbody Hk. revert s. induction fuel as [|fuel IH]; intros s Hfuel.
  - destruct s; [|simpl in Hfuel; lia].
    exists [], []. split_and!; [done | constructor | by left | done].
  - destruct s as [|x s].
    + exists [], []. split_and!; [done | constructor | by left |].
      simpl. by rewrite Hbody.
    + simpl in Hfuel. destruct (p x) eqn:Hp.
      * destruct (IH s) as (run & rest & -> & Hrun & Hrest & Hloop); [lia|].
        exists (x :: run), rest. split_and!; [done | by constructor | done |].
        simpl. rewrite Hbody, Hp. rewrite decide_True by (simpl; lia).
        rewrite Hloop. by destruct (Hk rest c) as [y ->].
      * exists [], (x :: s). split_and!; [done | constructor | right; eauto |].
        simpl. by rewrite Hbody, Hp.
Qed.

Lemma starLoop_greedy_class {R : Type} (p : N → bool) (k : Cont R)
  (fuel : nat) s c :
  (∀ s c, is_Some (k s c)) → (length s ≤ fuel)%nat →
  ∃ run rest,
    s = run ++ rest ∧ Forall (λ x, p x = true) run ∧ endsRun p rest
    ∧ starLoop (m (Class p)) true k fuel s c = k rest c.
Proof. apply starLoop_greedy_run. done. Qed.

(** The group [([^...]+)] in front of a continuation that cannot fail
    captures the whole run. *)
Lemma m_group_run {R : Type} (p : N → bool) (k : Cont R) s c x :
  (∀ s c, is_Some (k s c)) →
  m (Group (Plus (Class p))) s c k = Some x →
  ∃ y run rest,
    s = (y :: run) ++ rest ∧ p y = true ∧ Forall (λ z, p z = true) run
    ∧ endsRun p rest ∧ k rest (Some (y :: run)) = Some x.
Proof.
  intros Hk Hrun. unfold Plus in Hrun. simpl in Hrun.
  destruct s as [|y s]; [done|]. destruct (p y) eqn:Hp; [|done].
  destruct (starLoop_greedy_class p
              (λ s' _, k s' (Some (take (length (y :: s) - length s') (y :: s))))
              (length s) s c) as (run & rest & -> & Hall & Hrest & Hloop);
    [intros; apply Hk | done |].
  simpl in Hrun, Hloop. rewrite Hloop in Hrun.
  exists y, run, rest. split_and!; try done.
  rewrite <- Hrun. do 2 f_equal. symmetry.
  apply (take_consumed (y :: run) rest).
Qed.

Lemma reasoningRe_keyed :
  reasoningRe = keyed (js "REASONING:") (Plus (Class inReasoning)).
Proof. reflexivity. Qed.

Lemma matchAt_reasoningRe (text w : jsstring) g :
  matchAt reasoningRe text = Some (w, g) →
  ∃ ws stars reasoning post,
    text = js "REASONING:" ++ ws ++ stars ++ reasoning ++ post
    ∧ allSpace ws ∧ upToTwoAsterisks stars
    ∧ g = Some reasoning
    ∧ reasoning ≠ []
    ∧ Forall (λ x, inReasoning x = true) reasoning
    ∧ endsRun inReasoning post.
Proof.
  unfold matchAt. rewrite reasoningRe_keyed. unfold keyed.
  intros (u1 & s1 & c1 & -> & H1 & Hrun)%m_Seq_sound.
  apply m_Seq_sound in Hrun as (u2 & s2 & c2 & -> & H2 & Hrun).
  apply m_Seq_sound in Hrun as (u3 & s3 & c3 & -> & H3 & Hrun).
  change (m (Seq ?a ?b) ?s ?c ?k) with (m a s c (λ s' c', m b s' c' k)) in Hrun.
  apply m_group_run in Hrun as (y & run & rest & -> & Hy & Hall & Hrest & Hrun).
  2: { intros s c. by apply m_UpTo2_total. }
  apply m_sound in Hrun as (u5 & s5 & c5 & _ & H5 & Hk).
  apply matches_Lit_inv in H1 as [-> _].
  apply matches_spaces_inv in H2 as [Hws _].
  apply matches_UpTo2_inv in H3 as [Hstars _].
  apply matches_UpTo2_inv in H5 as [_ ->].
  injection Hk as _ <-.
  exists u2, u3, (y :: run), rest. split_and!; try done. by constructor.
Qed.


Lemma matches_evidence_inv (keyword blank w post : jsstring) c g :
  matches
    (Seq (Lit keyword)
       (Seq (Star true (Class isSpace))
          (Seq (UpTo2 (Chr asterisk))
             (Seq (Group (Star false (Class (λ _, true))))
                (Seq (UpTo2 (Chr asterisk))
                   (Lookahead (Alt (Lit blank) AssertEnd)))))))
    w post c g →
  ∃ ws stars evidence stars',
    w = keyword ++ ws ++ stars ++ evidence ++ stars'
    ∧ allSpace ws ∧ upToTwoAsterisks stars ∧ upToTwoAsterisks stars'
    ∧ g = Some evidence
    ∧ (post = [] ∨ ∃ t, post = blank ++ t).
Proof.
  intros Hm.
  inversion Hm as [| |? ? u1 v1 ? ? c1 ? H1 Hm1| | | | | | |]; subst.
  inversion Hm1 as [| |? ? u2 v2 ? ? c2 ? H2 Hm2| | | | | | |]; subst.
  inversion Hm2 as [| |? ? u3 v3 ? ? c3 ? H3 Hm3| | | | | | |]; subst.
  inversion Hm3 as [| |? ? u4 v4 ? ? c4 ? H4 Hm4| | | | | | |]; subst.
  inversion Hm4 as [| |? ? u5 v5 ? ? c5 ? H5 H6| | | | | | |]; subst.
  apply matches_Lit_inv in H1 as [-> ->].
  apply matches_spaces_inv in H2 as [Hws ->].
  apply matches_UpTo2_inv in H3 as [Hstars ->].
  inversion H4 as [| | | | | | |? ? ? ? c6 Hgroup| |]; subst.
  apply matches_UpTo2_inv in H5 as [Hstars' ->].
  inversion H6 as [| | | | | | | |? u7 rest7 ? ? Hlook|]; subst.
  assert (g = Some u4 ∧ (u7 ++ rest7 = [] ∨ ∃ t, u7 ++ rest7 = blank ++ t))
    as [-> Hpost].
  { inversion Hlook as [| | |? ? ? ? ? ? Hl|? ? ? ? ? ? Hr| | | | |]; subst.
    - apply matches_Lit_inv in Hl as [-> ->]. split; [done|]. right. by exists rest7.
    - inversion Hr; subst. split; [done | by left]. }
  exists u2, u3, u4, u5. split_and!; try done. by rewrite app_nil_r.
Qed.


End Parsing.

